(** * EDGAR financial-statement-and-notes pipeline

    A shallow embedding of the executable cells of
    [02_market_and_fundamental_data/fundamental_data_edgar_xbrl.ipynb]:
    the enumeration of filing periods, [fetch_filing_data], and the two
    bucket uploaders [upload_folder_to_s3] and
    [parallel_upload_folder_to_s3].

    Python integers are [Z], [str] is [string], [bytes] is
    [list Byte.byte].  The local disk read and written by the fetcher is
    a finite map from absolute paths to nodes, on which a path of the
    program is looked up part by part from the working directory, the
    way the operating system does; the directory tree read by the
    uploaders is an inductive tree walked the way [os.walk] does.  What a
    run prints, requests and uploads is collected in a list of events.

    Not described: permissions, symbolic links on the fetcher's paths,
    limits on the length of names, a full disk, and other processes
    changing the disk during a run. *)

From Stdlib Require Import Strings.Ascii Strings.Byte.
From stdpp Require Import gmap strings list fin_maps pretty sorting.

Open Scope string_scope.
Open Scope list_scope.
Open Scope Z_scope.

(** ** Python built-ins used by the notebook *)

(** [range(lo, hi)]: the integers [lo], [lo+1], ..., [hi-1]. *)
Definition range (lo hi : Z) : list Z := seqZ lo (hi - lo).

(** [s[n:]] on a [str]. *)
Fixpoint str_drop (n : nat) (s : string) : string :=
  match n, s with
  | O, _ => s
  | S n', String _ s' => str_drop n' s'
  | S _, EmptyString => EmptyString
  end.

(** Every character of [s] satisfies [P]. *)
Fixpoint str_all (P : ascii → Prop) (s : string) : Prop :=
  match s with
  | EmptyString => True
  | String c s' => P c ∧ str_all P s'
  end.

(** The characters of a decimal numeral: the digits and the sign. *)
Definition numeral (c : ascii) : bool :=
  bool_decide (c ∈ String.list_ascii_of_string "-0123456789").

(** The line terminator that [print] appends by default. *)
Definition nl : string := String (Ascii.ascii_of_nat 10) EmptyString.

(** ** Filing periods *)

(** The part of [pd.Timestamp(date.today())] that the notebook reads. *)
Record timestamp := Timestamp { year : Z; month : Z; day : Z }.

(** [Timestamp.quarter]. *)
Definition quarter (t : timestamp) : Z := (month t - 1) / 3 + 1.

Definition period : Type := Z * Z.

Module Periods.

(** [past_years = range(2014, this_year)], with the first year as an
    argument; the notebook fixes it to [2014]. *)
Definition past_years_from (start this_year : Z) : list Z :=
  range start this_year.

(** The cell that builds [filing_periods]:
    [[(y, q) for y in past_years for q in range(1, 5)]] extended by
    [[(this_year, q) for q in range(1, this_quarter + 1)]]. *)
Definition filing_periods_from (start : Z) (today : timestamp) : list period :=
  let this_year := year today in
  let this_quarter := quarter today in
  let past_years := past_years_from start this_year in
  (y ← past_years; q ← range 1 5; [(y, q)])
    ++ ((λ q, (this_year, q)) <$> range 1 (this_quarter + 1)).

Definition start_year : Z := 2014.

Definition past_years (today : timestamp) : list Z :=
  past_years_from start_year (year today).

Definition filing_periods (today : timestamp) : list period :=
  filing_periods_from start_year today.

(** Lexicographic order on (year, quarter). *)
Definition period_lt (a b : period) : Prop :=
  a.1 < b.1 ∨ (a.1 = b.1 ∧ a.2 < b.2).

#[export] Instance period_lt_dec a b : Decision (period_lt a b).
Proof. unfold period_lt. apply _. Defined.

End Periods.

(** ** Disk, events and the monad of a run *)

Abbreviation bytes := (list Byte.byte).

#[export] Instance byte_eq_dec : EqDecision Byte.byte := Byte.byte_eq_dec.

(** A [pathlib.Path], as its parts: an absolute path has the root ["/"]
    as its first part; a part [..] is kept as it is written.  The keys
    of the disk are absolute paths, as the names from the root down. *)
Abbreviation path := (list string).

Inductive node :=
| File (content : bytes)
| Dir.

(** The local disk: which paths exist, and what is there. *)
Abbreviation disk := (gmap (list string) node).

(** What a run does to the outside world, in order. *)
Inductive event :=
| Stdout (text : string)                        (* written by [print] *)
| HttpGet (url : string)                        (* [requests.get(url)] *)
| S3Upload (file_name bucket key : string)      (* [s3_client.upload_file] *)
| PoolOpen (max_workers : nat)                  (* entering the [with] block *)
| PoolSubmit (file_name bucket key : string)    (* [executor.submit(upload_file_to_s3, ...)] *)
| PoolClose.                                    (* leaving the [with] block *)

(** The exceptions of a run.  Those of the file system carry the path
    as the program wrote it.  [BadZipFile] is the one exception that the
    notebook catches; [OtherError] stands for any exception that is
    none of the others (a [ConnectionError] of [requests], the
    [RuntimeError] of an encrypted member, [NotImplementedError],
    [zlib.error], ...), by the name of its class. *)
Inductive exn :=
| NotADirectoryError (p : path)
| FileNotFoundError (p : path)
| IsADirectoryError (p : path)
| FileExistsError (p : path)
| ValueError (p : path)
| BadZipFile (msg : string)
| OtherError (class : string).

Record result (A : Type) := Result {
  value : A + exn;      (* returned normally, or raised *)
  final : disk;         (* the disk afterwards *)
  output : list event   (* events emitted, oldest first *)
}.
Arguments Result {A} _ _ _.
Arguments value {A} _.
Arguments final {A} _.
Arguments output {A} _.

Definition run (A : Type) : Type := disk → result A.

#[export] Instance run_ret : MRet run := λ A a d, Result (inl a) d [].

#[export] Instance run_bind : MBind run := λ A B f m d,
  let r := m d in
  match value r with
  | inl a => let r' := f a (final r) in
             Result (value r') (final r') (output r ++ output r')
  | inr e => Result (inr e) (final r) (output r)
  end.

Definition emit (ev : event) : run unit := λ d, Result (inl ()) d [ev].

(** [raise e], and the outcome of a call that returns or raises without
    touching the disk. *)
Definition raise {A : Type} (e : exn) : run A := λ d, Result (inr e) d [].

Definition lift {A : Type} (v : A + exn) : run A := λ d, Result v d [].

(** [try: body except BadZipFile as e: handler(e)]: what [body] did to
    the disk and printed before it raised stays. *)
Definition try_except_BadZipFile (body : run unit)
    (handler : string → run unit) : run unit := λ d,
  let r := body d in
  match value r with
  | inr (BadZipFile msg) =>
      let h := handler msg (final r) in
      Result (value h) (final h) (output r ++ output h)
  | _ => r
  end.

(** [for x in l: body(x)]. *)
Fixpoint for_each {A : Type} (l : list A) (body : A → run unit) : run unit :=
  match l with
  | [] => mret ()
  | x :: l' => body x;; for_each l' body
  end.

(** [print(text)] and [print(text, end=' ')]. *)
Definition print (text : string) : run unit := emit (Stdout (text +:+ nl)).
Definition print_end (text end_ : string) : run unit := emit (Stdout (text +:+ end_)).

(** ** [pathlib] and the file system under it *)

Module Pathlib.

(** The pieces of a string between slashes. *)
Fixpoint split_slash (s : string) : list string :=
  match s with
  | EmptyString => [EmptyString]
  | String c s' =>
      if Ascii.eqb c "/"%char then EmptyString :: split_slash s'
      else match split_slash s' with
           | [] => [String c EmptyString]
           | hd :: tl => String c hd :: tl
           end
  end.

(** The names in a path string: empty pieces and [.] are dropped, [..]
    is kept. *)
Definition parts (s : string) : path :=
  filter (λ c, c ≠ EmptyString ∧ c ≠ ".") (split_slash s).

(** A path string that starts with a slash is absolute. *)
Definition is_absolute (s : string) : bool :=
  match s with
  | String c _ => Ascii.eqb c "/"%char
  | EmptyString => false
  end.

Definition root : string := "/".

(** [Path(s)], and [p / s]: an absolute [s] replaces [p]. *)
Definition Path (s : string) : path :=
  if is_absolute s then root :: parts s else parts s.

Definition div (p : path) (s : string) : path :=
  if is_absolute s then Path s else p ++ parts s.

(** [p.parent]: the root and the empty path are their own parents. *)
Definition parent (p : path) : path :=
  if decide (p = [root]) then p else removelast p.

(** The errors of the system calls used here. *)
Inductive errno := ENOENT | ENOTDIR | EEXIST.

Definition os_error (e : errno) (p : path) : exn :=
  match e with
  | ENOENT => FileNotFoundError p
  | ENOTDIR => NotADirectoryError p
  | EEXIST => FileExistsError p
  end.

(** What is at an absolute path: the root is a directory. *)
Definition kind (d : disk) (t : path) : option node :=
  match t with
  | [] => Some Dir
  | _ => d !! t
  end.

(** One step of a lookup, from the directory [cur]. *)
Definition step (cur : path) (c : string) : path :=
  if decide (c = "..") then removelast cur else cur ++ [c].

(** The lookup of the names [todo] from [cur]: a name is looked up in a
    directory; in a regular file it gives [ENOTDIR], in nothing
    [ENOENT].  The last name need not exist. *)
Fixpoint walk_from (d : disk) (cur : path) (todo : list string)
    : errno + path :=
  match todo with
  | [] => inr cur
  | c :: todo' =>
      match kind d cur with
      | Some Dir => walk_from d (step cur c) todo'
      | Some (File _) => inl ENOTDIR
      | None => inl ENOENT
      end
  end.

Section at_cwd.

(** The working directory of the process, as an absolute path. *)
Variable cwd : path.

(** The absolute path that [p] names, if the lookup gets there.  The
    path without parts is [.], the working directory itself. *)
Definition namei (d : disk) (p : path) : errno + path :=
  match p with
  | c :: p' => if decide (c = root) then walk_from d [] p'
               else walk_from d cwd p
  | [] => match kind d cwd with
          | Some Dir => inr cwd
          | Some (File _) => inl ENOTDIR
          | None => inl ENOENT
          end
  end.

(** [p.exists()]: a failed lookup means no. *)
Definition present (d : disk) (p : path) : bool :=
  match namei d p with
  | inr t => bool_decide (is_Some (kind d t))
  | inl _ => false
  end.

Definition exists_ (p : path) : run bool := λ d,
  Result (inl (present d p)) d [].

(** [p.is_dir()]. *)
Definition is_dir (d : disk) (p : path) : bool :=
  match namei d p with
  | inr t => match kind d t with Some Dir => true | _ => false end
  | inl _ => false
  end.

(** [os.mkdir(p)]. *)
Definition os_mkdir (p : path) (d : disk) : errno + disk :=
  match namei d p with
  | inl e => inl e
  | inr t =>
      match kind d t with
      | Some _ => inl EEXIST
      | None => inr (<[t := Dir]> d)
      end
  end.

(** [p.mkdir(parents=False, exist_ok=True)]. *)
Definition mkdir_exist_ok (p : path) : run unit := λ d,
  match os_mkdir p d with
  | inr d' => Result (inl ()) d' []
  | inl ENOENT => Result (inr (FileNotFoundError p)) d []
  | inl e =>
      if is_dir d p then Result (inl ()) d []
      else Result (inr (os_error e p)) d []
  end.

(** [Path(take n p).mkdir(parents=True, exist_ok=True)], as [pathlib]
    does it: the directory itself is tried first; when that gives
    [ENOENT] the parent is made in the same way and the directory is
    tried once more; any other error is passed over when the path is a
    directory and raised when it is not. *)
Fixpoint mkdir_first (p : path) (n : nat) : run unit := λ d,
  let q := take n p in
  match os_mkdir q d with
  | inr d' => Result (inl ()) d' []
  | inl ENOENT =>
      match n with
      | S n' =>
          if decide (parent q = q) then Result (inr (FileNotFoundError q)) d []
          else (mkdir_first p n';; mkdir_exist_ok q) d
      | O => Result (inr (FileNotFoundError q)) d []
      end
  | inl e =>
      if is_dir d q then Result (inl ()) d []
      else Result (inr (os_error e q)) d []
  end.

(** [p.mkdir(exist_ok=True, parents=True)]. *)
Definition mkdir (p : path) : run unit := mkdir_first p (length p).

(** [p.open('wb')]: the file is created empty, or truncated; the open
    file is known by the absolute path it was found at. *)
Definition open_wb (p : path) : run path := λ d,
  match namei d p with
  | inl e => Result (inr (os_error e p)) d []
  | inr t =>
      match kind d t with
      | Some Dir => Result (inr (IsADirectoryError p)) d []
      | _ => Result (inl t) (<[t := File []]> d) []
      end
  end.

(** [output.write(line)] on the file opened at [t]. *)
Definition write (t : path) (line : bytes) : run unit := λ d,
  match d !! t with
  | Some (File c) => Result (inl ()) (<[t := File (c ++ line)]> d) []
  | _ => Result (inr (ValueError t)) d []
  end.

End at_cwd.

End Pathlib.

Notation "p // s" := (Pathlib.div p s) (at level 40, left associativity).

(** ** [zipfile] *)

Module Zip.

(** A decoded archive: its members in directory order, each with what
    reading it gives, the decompressed content or the exception that
    [zip_file.open(name).readlines()] raises for it. *)
Record ZipFile := { filelist : list (string * (bytes + exn)) }.

(** [zip_file.namelist()]. *)
Definition namelist (z : ZipFile) : list string := (filelist z).*1.

(** The name table is filled member by member, so of two members with
    one name the later one is kept. *)
Definition NameToInfo (z : ZipFile) : gmap string (bytes + exn) :=
  list_to_map (reverse (filelist z)).

(** What [zip_file.open(name).readlines()] reads or raises. *)
Definition read (z : ZipFile) (name : string) : bytes + exn :=
  default (inr (OtherError "KeyError")) (NameToInfo z !! name).

(** [f.readlines()]: the content cut after every line feed. *)
Fixpoint readlines (bs : bytes) : list bytes :=
  match bs with
  | [] => []
  | b :: bs' =>
      if Byte.eqb b Byte.x0a then [b] :: readlines bs'
      else match readlines bs' with
           | [] => [[b]]
           | l :: ls => (b :: l) :: ls
           end
  end.

End Zip.

(** ** The archive fetcher *)

Definition data_path : path := Pathlib.Path "data".

Definition SEC_URL : string := "https://www.sec.gov/".
Definition FSN_PATH : string :=
  "files/dera/data/financial-statement-and-notes-data-sets/".

(** [f'{yr}q{qtr}_notes.zip'] *)
Definition filing_name (yr qtr : Z) : string :=
  pretty yr +:+ "q" +:+ pretty qtr +:+ "_notes.zip".

(** [data_path / f'{yr}_{qtr}' / 'source'] *)
Definition quarter_dir (yr qtr : Z) : path :=
  data_path // (pretty yr +:+ "_" +:+ pretty qtr) // "source".

(** [SEC_URL + FSN_PATH + filing] *)
Definition filing_url (yr qtr : Z) : string :=
  SEC_URL +:+ FSN_PATH +:+ filing_name yr qtr.

Section Fetcher.

(** The world of a run: the working directory; what [requests.get(url)]
    gives, the body of the response or the exception it raises; and
    what [ZipFile(BytesIO(body))] gives, the archive or the exception it
    raises ([BadZipFile] with its message, for a body that is no
    archive). *)
Variable cwd : path.
Variable http_get : string → bytes + exn.
Variable unzip : bytes → Zip.ZipFile + exn.

(** [requests.get(url).content]; it is outside of the [try]. *)
Definition requests_get (url : string) : run bytes := λ d,
  Result (http_get url) d [HttpGet url].

(** [if not path.exists(): path.mkdir(exist_ok=True, parents=True)] *)
Definition ensure_dir (dir : path) : run unit :=
  there ← Pathlib.exists_ cwd dir;
  if negb there then Pathlib.mkdir cwd dir else mret ().

(** The body of the inner loop: one member of the archive.  The file is
    opened, and so created, before the member is read. *)
Definition extract_member (dir : path) (zip_file : Zip.ZipFile)
    (file : string) : run unit :=
  let local_file := dir // file in
  there ← Pathlib.exists_ cwd local_file;
  if (there : bool) then mret ()
  else
    out ← Pathlib.open_wb cwd local_file;
    content ← lift (Zip.read zip_file file);
    for_each (Zip.readlines content) (Pathlib.write out).

(** The inner loop: [for file in zip_file.namelist(): ...]. *)
Definition extract_all (dir : path) (zip_file : Zip.ZipFile) : run unit :=
  for_each (Zip.namelist zip_file) (extract_member dir zip_file).

(** The body of the [try]: [with ZipFile(BytesIO(response)) as zip_file:]
    and the inner loop. *)
Definition extract_archive (dir : path) (response : bytes) : run unit :=
  zip_file ← lift (unzip response);
  extract_all dir zip_file.

(** The body of the outer loop, for one filing period.  The counter of
    [enumerate(filing_periods, 1)] is not used, and the other location
    of 2020 Q1 is commented out in the notebook, so every period takes
    the same path.  The [try] encloses the opening of the archive and
    the whole inner loop. *)
Definition fetch_period (p : period) : run unit :=
  let '(yr, qtr) := p in
  print_end (pretty yr +:+ "-Q" +:+ pretty qtr) " ";;
  let filing := filing_name yr qtr in
  let dir := quarter_dir yr qtr in
  ensure_dir dir;;
  let url := SEC_URL +:+ FSN_PATH +:+ filing in
  print ("url = " +:+ url);;
  response ← requests_get url;
  try_except_BadZipFile
    (extract_archive dir response)
    (λ e, print e;;
          print "got bad zip file").

Definition fetch_filing_data (filing_periods : list period) : run unit :=
  for_each filing_periods fetch_period.

End Fetcher.

(** ** [os.walk] *)

(** A directory as [os.scandir] lists it: its own name, the names of its
    regular files, and its subdirectories, each in listing order. *)
#[warnings="-register-all"]
Inductive dirtree :=
| DirTree (name : string) (files : list string) (subdirs : list dirtree).

Definition dir_name (t : dirtree) : string :=
  match t with DirTree name _ _ => name end.

Module Os.

Fixpoint ends_with_slash (s : string) : bool :=
  match s with
  | EmptyString => false
  | String c EmptyString => Ascii.eqb c "/"%char
  | String _ s' => ends_with_slash s'
  end.

(** [os.path.join(a, b)] for a relative [b]. *)
Definition path_join (a b : string) : string :=
  match a with
  | EmptyString => b
  | _ => if ends_with_slash a then a +:+ b else a +:+ "/" +:+ b
  end.

(** The triples [(root, dirs, files)] that a top-down walk of the
    directory [t], reached as [top], yields. *)
Fixpoint walk_tree (top : string) (t : dirtree)
    : list (string * list string * list string) :=
  match t with
  | DirTree _ files subdirs =>
      (top, dir_name <$> subdirs, files)
        :: flat_map (λ sub, walk_tree (path_join top (dir_name sub)) sub) subdirs
  end.

Definition subdir (t : dirtree) (name : string) : option dirtree :=
  match t with
  | DirTree _ _ subdirs => snd <$> list_find (λ sub, dir_name sub = name) subdirs
  end.

(** The directory that the relative path [top] names, if any. *)
Definition resolve (cwd : dirtree) (top : string) : option dirtree :=
  foldl (λ t name, t ≫= (λ t', subdir t' name)) (Some cwd) (Pathlib.parts top).

(** [os.walk(top)]: nothing is yielded when [top] is not a directory. *)
Definition walk (cwd : dirtree) (top : string)
    : list (string * list string * list string) :=
  match resolve cwd top with
  | Some t => walk_tree top t
  | None => []
  end.

End Os.

(** ** The bucket uploaders *)

(** The part of the [boto3] client that the uploaders call:
    whether [upload_file(file_name, bucket, key)] returns or raises. *)
Record S3Client := { upload_file : string → string → string → bool }.

Section Uploader.

(** The tree below the working directory while the upload runs.  An
    upload changes nothing on the local disk, so a run is the list of
    the events it emits. *)
Variable cwd : dirtree.

(** A failed upload is caught by the bare [except] and reported. *)
Definition upload_file_to_s3 (file_name bucket key : string)
    (s3_client : S3Client) : list event :=
  S3Upload file_name bucket key
    :: (if upload_file s3_client file_name bucket key then []
        else [Stdout ("Error when uploading file: " +:+ file_name +:+ nl)]).

(** [print("uploading file: ", file_path)] *)
Definition print_uploading (file_path : string) : event :=
  Stdout ("uploading file: " +:+ " " +:+ file_path +:+ nl).

(** The walk starts at the literal ["./data"]; [folder] is not read. *)
Definition upload_folder_to_s3 (folder bucket : string)
    (s3_client : S3Client) : list event :=
  '(root, dirs, files) ← Os.walk cwd "./data";
  file ← files;
  let file_path := root +:+ "/" +:+ file in
  upload_file_to_s3 file_path bucket (str_drop 2 file_path) s3_client
    ++ [print_uploading file_path].

Definition max_workers : nat := 10.

(** The driver's own events: the tasks it submits run on the workers and
    are recorded here only as submitted. *)
Definition parallel_upload_folder_to_s3 (folder bucket : string)
    (s3_client : S3Client) : list event :=
  [PoolOpen max_workers]
    ++ ('(root, dirs, files) ← Os.walk cwd "./data";
        file ← files;
        let file_path := root +:+ "/" +:+ file in
        [print_uploading file_path]
          ++ upload_file_to_s3 file_path bucket (str_drop 2 file_path) s3_client
          ++ [PoolSubmit file_path bucket (str_drop 2 file_path)])
    ++ [PoolClose].

(** The file paths a walk of [top] visits, in order. *)
Definition walked_files (top : string) : list string :=
  '(root, dirs, files) ← Os.walk cwd top;
  file ← files;
  [root +:+ "/" +:+ file].

End Uploader.

(** ** What a run shows *)

(** The progress line of a period: [print(f'{yr}-Q{qtr}', end=' ')]. *)
Definition banner (yr qtr : Z) : event :=
  Stdout ((pretty yr +:+ "-Q" +:+ pretty qtr) +:+ " ").

(** The events of a period up to and including its request. *)
Definition asked (yr qtr : Z) : list event :=
  [banner yr qtr;
   Stdout ("url = " +:+ filing_url yr qtr +:+ nl);
   HttpGet (filing_url yr qtr)].

(** The two lines printed by the [except BadZipFile] clause. *)
Definition bad_zip_report (msg : string) : list event :=
  [Stdout (msg +:+ nl); Stdout ("got bad zip file" +:+ nl)].

(** What the [try] of the fetcher makes of a run of its body: a
    [BadZipFile] becomes the report, anything else stays as it is. *)
Definition reported (r : result unit) : result unit :=
  match value r with
  | inr (BadZipFile msg) =>
      Result (inl ()) (final r) (output r ++ bad_zip_report msg)
  | _ => r
  end.

(** [q] lies strictly below the directory [dir]; [q] lies on the way to
    [dir] or at or below it; and two disks hold the same at every path
    that satisfies [S]. *)
Definition below (dir q : path) : Prop := dir `prefix_of` q ∧ q ≠ dir.

Definition around (dir q : path) : Prop := q `prefix_of` dir ∨ dir `prefix_of` q.


(** A disk as a file system has it: the working directory is a
    directory, and every entry lies in a directory. *)
Definition tree_like (cwd : path) (d : disk) : Prop :=
  Pathlib.kind d cwd = Some Dir
  ∧ map_Forall (λ t _, Pathlib.kind d (removelast t) = Some Dir) d.

(** A path that is looked up from the working directory downwards: not
    absolute, and without a part [..]. *)
Definition plain_path (q : path) : Prop :=
  head q ≠ Some Pathlib.root ∧ ".." ∉ q.

(** A member name that stays where it is put: not absolute, and without
    a part [..]. *)
Definition plain_name (name : string) : bool :=
  negb (Pathlib.is_absolute name)
  && bool_decide (".." ∉ Pathlib.parts name).

Definition plain_archive (z : Zip.ZipFile) : bool :=
  forallb plain_name (Zip.namelist z).

(** Every member of the archive can be read. *)
Definition readable (z : Zip.ZipFile) : bool :=
  forallb (λ name, match Zip.read z name with
                   | inl _ => true
                   | inr _ => false
                   end) (Zip.namelist z).

(** The archive that the request of a period is answered with, when it
    is answered with one. *)
Definition archive_of (http_get : string → bytes + exn)
    (unzip : bytes → Zip.ZipFile + exn) (yr qtr : Z)
    : option Zip.ZipFile :=
  match http_get (filing_url yr qtr) with
  | inl body => match unzip body with
                | inl z => Some z
                | inr _ => None
                end
  | inr _ => None
  end.

(** Every archive that a period of the batch is answered with has the
    property [P]. *)
Definition all_archives (P : Zip.ZipFile → bool)
    (http_get : string → bytes + exn) (unzip : bytes → Zip.ZipFile + exn)
    (l : list period) : Prop :=
  ∀ yr qtr z, (yr, qtr) ∈ l → archive_of http_get unzip yr qtr = Some z →
              P z = true.

(** The arguments with which a walked file is uploaded. *)
Definition upload_args (bucket file_path : string) : string * string * string :=
  (file_path, bucket, str_drop 2 file_path).

(** The URLs a run requested, in order. *)
Definition requested (out : list event) : list string :=
  omap (λ ev, match ev with HttpGet url => Some url | _ => None end) out.

(** The synchronous calls of [s3_client.upload_file] in a run, and the
    tasks handed to the worker pool, each as (file, bucket, key). *)
Definition uploads (out : list event) : list (string * string * string) :=
  omap (λ ev, match ev with
              | S3Upload f b k => Some (f, b, k)
              | _ => None
              end) out.

Definition submissions (out : list event) : list (string * string * string) :=
  omap (λ ev, match ev with
              | PoolSubmit f b k => Some (f, b, k)
              | _ => None
              end) out.

(** ** The rest of the notebook *)

(** [l[-n:]] for a positive [n]: the last [n] items of [l], or all of
    [l] when it has fewer. *)
Definition last_items {A : Type} (n : nat) (l : list A) : list A :=
  drop (length l - n) l.

(** The batch that the notebook fetches: [filing_periods[-7:]]. *)
Definition recent_periods (today : timestamp) : list period :=
  last_items 7 (Periods.filing_periods today).


(** [os.walk] looks before it goes down into a subdirectory: it does
    not when [islink(join(top, name))] says that the subdirectory is a
    symbolic link; the directory it is started at is walked in any case.
    The tree has the target of a link where the link is, as the listing
    of a directory shows it; [Os.walk_tree] is the walk of a tree
    without links. *)
Fixpoint walk_tree_nofollow (islink : string → bool) (top : string)
    (t : dirtree) : list (string * list string * list string) :=
  match t with
  | DirTree _ files subdirs =>
      (top, dir_name <$> subdirs, files)
        :: flat_map (λ sub,
             let new_path := Os.path_join top (dir_name sub) in
             if islink new_path then []
             else walk_tree_nofollow islink new_path sub) subdirs
  end.

Definition walk_nofollow (islink : string → bool) (cwd : dirtree)
    (top : string) : list (string * list string * list string) :=
  match Os.resolve cwd top with
  | Some t => walk_tree_nofollow islink top t
  | None => []
  end.

(** The file paths of the triples of a walk, in order. *)
Definition files_of (w : list (string * list string * list string))
    : list string :=
  '(root, dirs, files) ← w;
  file ← files;
  [root +:+ "/" +:+ file].

(** The cell that lists the working directory: it walks ["."] and prints
    [root + "/" + file] for every file. *)
Definition list_working_directory (islink : string → bool)
    (cwd : dirtree) : list event :=
  '(root, dirs, files) ← walk_nofollow islink cwd ".";
  file ← files;
  [Stdout ((root +:+ "/" +:+ file) +:+ nl)].

(** The lines a run printed, in order. *)
Definition printed (out : list event) : list string :=
  omap (λ ev, match ev with Stdout text => Some text | _ => None end) out.

(** The line that reports a failed upload. *)
Definition upload_error_line (file_name : string) : string :=
  ("Error when uploading file: " +:+ file_name) +:+ nl.

(** The walked files whose upload the client refuses. *)
Definition refused (s3_client : S3Client) (bucket : string)
    (l : list string) : list string :=
  filter (λ fp, upload_file s3_client fp bucket (str_drop 2 fp) = false) l.

(** The file paths that a walk of the tree [t], reached as [top],
    visits. *)
Definition tree_files (top : string) (t : dirtree) : list string :=
  '(root, dirs, files) ← Os.walk_tree top t;
  file ← files;
  [root +:+ "/" +:+ file].

(** The same paths, without [top]. *)
Fixpoint rel_files (t : dirtree) : list string :=
  match t with
  | DirTree _ files subdirs =>
      ((λ file, "/" +:+ file) <$> files)
        ++ (sub ← subdirs;
            (λ rest, "/" +:+ dir_name sub +:+ rest) <$> rel_files sub)
  end.

(** A name as a directory listing gives it: not empty, without slash. *)
Fixpoint no_slash (s : string) : bool :=
  match s with
  | EmptyString => true
  | String c s' => negb (Ascii.eqb c "/"%char) && no_slash s'
  end.

Definition entry_name (s : string) : bool :=
  match s with
  | EmptyString => false
  | _ => no_slash s
  end.

(** A tree as a file system has it: in every directory the files have
    different names and so have the subdirectories, and every name is
    an entry name. *)
Fixpoint well_formed (t : dirtree) : bool :=
  match t with
  | DirTree _ files subdirs =>
      bool_decide (NoDup files)
      && bool_decide (NoDup (dir_name <$> subdirs))
      && forallb entry_name files
      && forallb (λ sub, entry_name (dir_name sub)) subdirs
      && forallb well_formed subdirs
  end.

(** ** Sample inputs *)

Module Sample.

Definition text (s : string) : bytes := String.list_byte_of_string s.

(** A network that answers the request for 2020 Q1 with a web page and
    every other request with an archive of three members. *)
Definition page : bytes := text "<html>moved</html>".
Definition zipped : bytes := text "PK-notes".

Definition http_get (url : string) : bytes + exn :=
  if decide (url = filing_url 2020 1) then inl page else inl zipped.



Definition archive : Zip.ZipFile :=
  {| Zip.filelist :=
       [("sub.tsv", inl (text ("adsh" +:+ nl +:+ "0001")));
        ("tag.tsv", inl (text "tag"));
        ("num.tsv", inl (text "num"))] |}.

Definition unzip (body : bytes) : Zip.ZipFile + exn :=
  if decide (body = zipped) then inl archive
  else inr (BadZipFile "File is not a zip file").

(** Decoders that accept nothing, and that find an archive without
    members in everything. *)
Definition unzip_never (body : bytes) : Zip.ZipFile + exn :=
  inr (BadZipFile "File is not a zip file").
Definition unzip_empty (body : bytes) : Zip.ZipFile + exn :=
  inl {| Zip.filelist := [] |}.

(** A decoder that finds an archive with a member in a folder, and one
    whose archive lists the folder itself before the member. *)
Definition archive_with_folder : Zip.ZipFile :=
  {| Zip.filelist :=
       [("sub.tsv", inl (text "sub"));
        ("notes/readme.htm", inl (text "notes"))] |}.
Definition unzip_with_folder (body : bytes) : Zip.ZipFile + exn :=
  inl archive_with_folder.

Definition archive_with_folder_entry : Zip.ZipFile :=
  {| Zip.filelist :=
       [("notes/", inl []); ("notes/readme.htm", inl (text "notes"))] |}.
Definition unzip_with_folder_entry (body : bytes) : Zip.ZipFile + exn :=
  inl archive_with_folder_entry.

(** A decoder whose archive opens, but whose first member fails its
    check when it is read. *)
Definition archive_corrupt : Zip.ZipFile :=
  {| Zip.filelist :=
       [("sub.tsv", inr (BadZipFile "Bad CRC-32 for file 'sub.tsv'"));
        ("tag.tsv", inl (text "tag"))] |}.
Definition unzip_corrupt (body : bytes) : Zip.ZipFile + exn :=
  inl archive_corrupt.


(** The working directory of the notebook, and a disk with nothing in
    it. *)
Definition workdir : path := ["home"; "ml4t"].

Definition fresh : disk :=
  <[ ["home"; "ml4t"] := Dir ]> (<[ ["home"] := Dir ]> ∅).

(** A disk on which [sub.tsv] of 2019 Q3 is already there. *)
Definition disk_2019q3 : disk :=
  <[ workdir ++ ["data"; "2019_3"; "source"; "sub.tsv"] := File (text "old") ]>
    (<[ workdir ++ ["data"; "2019_3"; "source"] := Dir ]>
       (<[ workdir ++ ["data"; "2019_3"] := Dir ]>
          (<[ workdir ++ ["data"] := Dir ]> fresh))).

(** A disk on which the quarter directory of 2020 Q2 is there, empty,
    and one on which a regular file has the place of the quarter
    directory of 2020 Q1. *)
Definition disk_2020q2 : disk :=
  <[ workdir ++ ["data"; "2020_2"; "source"] := Dir ]>
    (<[ workdir ++ ["data"; "2020_2"] := Dir ]>
       (<[ workdir ++ ["data"] := Dir ]> fresh)).

Definition disk_file_in_place : disk :=
  <[ workdir ++ ["data"; "2020_1"; "source"] := File (text "note") ]>
    (<[ workdir ++ ["data"; "2020_1"] := Dir ]>
       (<[ workdir ++ ["data"] := Dir ]> fresh)).

(** A working directory with files below [./data] and below [./other]. *)
Definition cwd : dirtree :=
  DirTree "." ["README.md"]
    [DirTree "data" []
       [DirTree "2015_1" [] [DirTree "source" ["ren.tsv"; "pre.tsv"] []];
        DirTree "a" [] [DirTree "b" ["c.tsv"] []]];
     DirTree "other" ["x.txt"] []].

(** Links: [./other] is a symbolic link, nothing else is. *)
Definition islink (file_path : string) : bool :=
  bool_decide (file_path = "./other").

(** A client for which one upload fails. *)
Definition client : S3Client :=
  {| upload_file := λ file_name _ _,
       bool_decide (file_name ≠ "./data/2015_1/source/pre.tsv") |}.

End Sample.

(** ** Properties of the period enumeration *)

Section sorted_lists.
Context {A : Type} (R : relation A).

Lemma StronglySorted_bind {B : Type} (S : relation B)
    (f : B → list A) (l : list B) :
  StronglySorted S l →
  (∀ b, b ∈ l → StronglySorted R (f b)) →
  (∀ b1 b2 x1 x2, S b1 b2 → x1 ∈ f b1 → x2 ∈ f b2 → R x1 x2) →
  StronglySorted R (l ≫= f).
Proof.
  intros Hl. induction Hl as [|b l Hl IH Hb]; intros Hf Hcross.
  - constructor.
  - change ((b :: l) ≫= f) with (f b ++ (l ≫= f)).
    apply StronglySorted_app_2.
    + intros x1 x2 Hx1 (b2 & Hx2 & Hb2)%list_elem_of_bind.
      eapply Hcross; [|done..]. rewrite Forall_forall in Hb. by apply Hb.
    + apply Hf. left.
    + apply IH; [|done]. intros b' Hb'. apply Hf. by right.
Qed.

Lemma StronglySorted_irrefl_NoDup (l : list A) :
  Irreflexive R → StronglySorted R l → NoDup l.
Proof.
  intros Hirr. induction 1 as [|x l _ IH Hx]; constructor; [|done].
  intros Hin. rewrite Forall_forall in Hx. by apply (Hirr x), Hx.
Qed.
End sorted_lists.

Lemma StronglySorted_seqZ (m n : Z) : StronglySorted Z.lt (seqZ m n).
Proof.
  destruct (decide (0 ≤ n)) as [Hn|Hn]; [|rewrite seqZ_nil; [constructor|lia]].
  rewrite <-(Z2Nat.id n) by done. generalize (Z.to_nat n) as k. clear Hn n.
  intros k. revert m. induction k as [|k IH]; intros m.
  - constructor.
  - rewrite seqZ_cons by lia. constructor.
    + replace (Z.pred (Z.of_nat (S k))) with (Z.of_nat k) by lia. apply IH.
    + apply Forall_seqZ. lia.
Qed.

Lemma StronglySorted_range (lo hi : Z) : StronglySorted Z.lt (range lo hi).
Proof. apply StronglySorted_seqZ. Qed.

Lemma elem_of_range (lo hi k : Z) : k ∈ range lo hi ↔ lo ≤ k < hi.
Proof. unfold range. rewrite elem_of_seqZ. lia. Qed.

Module PeriodFacts.
Import Periods.

#[export] Instance period_lt_irrefl : Irreflexive period_lt.
Proof. intros [y q] H. unfold period_lt in H. simpl in H. lia. Qed.

Lemma elem_of_filing_periods_from start today (y q : Z) :
  (y, q) ∈ filing_periods_from start today ↔
    (start ≤ y < year today ∧ 1 ≤ q ≤ 4)
    ∨ (y = year today ∧ 1 ≤ q ≤ quarter today).
Proof.
  unfold filing_periods_from, past_years_from.
  rewrite elem_of_app, list_elem_of_bind, list_elem_of_fmap.
  split.
  - intros [(y' & (q' & Hin & Hq')%list_elem_of_bind & Hy')|(q' & Heq & Hq')].
    + apply list_elem_of_singleton in Hin. simplify_eq.
      apply elem_of_range in Hq', Hy'. left. lia.
    + simplify_eq. apply elem_of_range in Hq'. right. lia.
  - intros [[Hy Hq]|[-> Hq]].
    + left. exists y. split; [|apply elem_of_range; lia].
      apply list_elem_of_bind. exists q. split; [by left|].
      apply elem_of_range. lia.
    + right. exists q. split; [done|]. apply elem_of_range. lia.
Qed.

Lemma filing_periods_from_sorted start today :
  StronglySorted period_lt (filing_periods_from start today).
Proof.
  unfold filing_periods_from, past_years_from.
  apply StronglySorted_app_2.
  - intros [y1 q1] [y2 q2].
    intros (y & (q & Hin & _)%list_elem_of_bind & Hy)%list_elem_of_bind.
    intros (q' & Heq & _)%list_elem_of_fmap.
    apply list_elem_of_singleton in Hin. simplify_eq.
    apply elem_of_range in Hy. left. simpl. lia.
  - apply (StronglySorted_bind _ Z.lt); [apply StronglySorted_range|..].
    + intros y _. apply (StronglySorted_bind _ Z.lt);
        [apply StronglySorted_range|..].
      * intros q _. repeat constructor.
      * intros q1 q2 p1 p2 Hq ->%list_elem_of_singleton
          ->%list_elem_of_singleton. right. simpl. lia.
    + intros y1 y2 p1 p2 Hy (q1 & ->%list_elem_of_singleton & _)%list_elem_of_bind
        (q2 & ->%list_elem_of_singleton & _)%list_elem_of_bind.
      left. simpl. lia.
  - eapply StronglySorted_fmap, StronglySorted_range.
    intros q1 q2 Hq. right. simpl. lia.
Qed.

End PeriodFacts.

(** ** Sequencing and loops *)

(** Reduce the projections of a result that is given by its fields. *)
Ltac run_simpl := cbn [value final output app].

Lemma result_eta {A : Type} (r : result A) :
  Result (value r) (final r) (output r) = r.
Proof. by destruct r. Qed.

Lemma bind_run {A B : Type} (m : run A) (f : A → run B) (d : disk) :
  (m ≫= f) d =
    match value (m d) with
    | inl a => Result (value (f a (final (m d)))) (final (f a (final (m d))))
                 (output (m d) ++ output (f a (final (m d))))
    | inr e => Result (inr e) (final (m d)) (output (m d))
    end.
Proof. reflexivity. Qed.

Lemma for_each_cons {A : Type} (x : A) (l : list A) (body : A → run unit) d :
  for_each (x :: l) body d = (body x;; for_each l body) d.
Proof. reflexivity. Qed.


(** ** Facts about the disk operations *)

Module PathlibFacts.
Import Pathlib.

Lemma kind_lookup d t : t ≠ [] → kind d t = d !! t.
Proof. by destruct t. Qed.

Lemma kind_None d t : kind d t = None → t ≠ [] ∧ d !! t = None.
Proof. by destruct t. Qed.

Lemma kind_mono d d' t n : d ⊆ d' → kind d t = Some n → kind d' t = Some n.
Proof.
  destruct t as [|c t]; [done|]. simpl. intros Hsub Ht. by eapply lookup_weaken.
Qed.

Lemma kind_insert d t n : t ≠ [] → kind (<[t := n]> d) t = Some n.
Proof. intros Ht. rewrite kind_lookup by done. apply lookup_insert_eq. Qed.

Lemma kind_insert_ne d t n q : q ≠ t → kind (<[t := n]> d) q = kind d q.
Proof. intros Hq. destruct q as [|c q]; [done|]. simpl. by apply lookup_insert_ne. Qed.

Lemma insert_new_subseteq (d : disk) t n : kind d t = None → d ⊆ <[t := n]> d.
Proof. intros [_ Ht]%kind_None. by apply insert_subseteq. Qed.

Lemma prefix_snoc_inv {A : Type} (q l : list A) (x : A) :
  q `prefix_of` l ++ [x] → q `prefix_of` l ∨ q = l ++ [x].
Proof.
  intros [k Hk]. destruct k as [|y k _] using rev_ind.
  - right. by rewrite app_nil_r in Hk.
  - left. rewrite app_assoc in Hk. apply app_inj_tail in Hk as [-> _].
    by exists k.
Qed.

Lemma step_plain cur c : c ≠ ".." → step cur c = cur ++ [c].
Proof. intros Hc. unfold step. by rewrite decide_False. Qed.

(** A lookup that got somewhere gets there on every larger disk. *)
Lemma walk_from_mono d d' cur todo t :
  d ⊆ d' → walk_from d cur todo = inr t → walk_from d' cur todo = inr t.
Proof.
  intros Hsub. revert cur. induction todo as [|c todo IH]; intros cur; [done|].
  simpl. destruct (kind d cur) as [[]|] eqn:Hk; [done| |done].
  rewrite (kind_mono d d' cur Dir Hsub Hk). apply IH.
Qed.

(** Where a lookup gets to is where it started, or one step from a
    directory. *)
Lemma walk_from_last d cur todo t :
  walk_from d cur todo = inr t →
  t = cur ∨ ∃ cur' c, kind d cur' = Some Dir ∧ t = step cur' c.
Proof.
  revert cur. induction todo as [|c todo IH]; intros cur; simpl.
  { intros [= ->]. by left. }
  destruct (kind d cur) as [[]|] eqn:Hk; [done| |done].
  intros [->|Hlast]%IH; [|by right]. right. by exists cur, c.
Qed.

(** A lookup of names without [..] goes down name by name, through
    directories. *)
Lemma walk_plain d cur todo t :
  ".." ∉ todo → walk_from d cur todo = inr t →
  t = cur ++ todo
  ∧ ∀ k, k `prefix_of` todo → k ≠ todo → kind d (cur ++ k) = Some Dir.
Proof.
  revert cur. induction todo as [|c todo IH]; intros cur Hdots; simpl.
  { intros [= <-]. rewrite app_nil_r. split; [done|].
    by intros k ->%prefix_nil_inv. }
  apply not_elem_of_cons in Hdots as [Hc Hdots].
  destruct (kind d cur) as [[]|] eqn:Hk; [done| |done].
  rewrite step_plain by done. intros Hw.
  destruct (IH _ Hdots Hw) as [-> Hdirs]. split; [by rewrite <-app_assoc|].
  intros [|c' k] Hpre Hne; [by rewrite app_nil_r|].
  apply prefix_cons_inv_1 in Hpre as Hc'. subst c'.
  apply prefix_cons_inv_2 in Hpre.
  rewrite (cons_middle c cur k), app_assoc. apply Hdirs; [done|congruence].
Qed.

Lemma walk_plain_ok d cur todo :
  ".." ∉ todo →
  (∀ k, k `prefix_of` todo → k ≠ todo → kind d (cur ++ k) = Some Dir) →
  walk_from d cur todo = inr (cur ++ todo).
Proof.
  revert cur. induction todo as [|c todo IH]; intros cur Hdots Hdirs; simpl.
  { by rewrite app_nil_r. }
  apply not_elem_of_cons in Hdots as [Hc Hdots].
  rewrite <-(app_nil_r cur) at 1. rewrite (Hdirs []); [|apply prefix_nil|done].
  rewrite step_plain, (cons_middle c cur todo), app_assoc by done.
  apply IH; [done|]. intros k Hpre Hne. rewrite <-app_assoc. apply Hdirs.
  - by apply prefix_cons.
  - simpl. congruence.
Qed.


(** What stops it is on the way, and is not a directory. *)
Lemma walk_plain_stopped d cur todo e :
  ".." ∉ todo → walk_from d cur todo = inl e →
  ∃ k, k `prefix_of` todo ∧ k ≠ todo
       ∧ match e with
         | ENOENT => kind d (cur ++ k) = None
         | ENOTDIR => ∃ c, kind d (cur ++ k) = Some (File c)
         | EEXIST => False
         end.
Proof.
  revert cur. induction todo as [|c todo IH]; intros cur Hdots; [done|].
  apply not_elem_of_cons in Hdots as [Hc Hdots]. simpl.
  destruct (kind d cur) as [[content|]|] eqn:Hk.
  - intros [= <-]. exists []. rewrite app_nil_r.
    split; [apply prefix_nil|]. split; [done|by exists content].
  - rewrite step_plain by done. intros (k & Hpre & Hne & Hk')%IH; [|done].
    exists (c :: k). split; [by apply prefix_cons|]. split; [congruence|].
    by rewrite (cons_middle c cur k), app_assoc.
  - intros [= <-]. exists []. rewrite app_nil_r.
    split; [apply prefix_nil|]. by split.
Qed.

Section at_cwd.

Variable cwd : path.

Lemma namei_mono d d' p t :
  d ⊆ d' → namei cwd d p = inr t → namei cwd d' p = inr t.
Proof.
  unfold namei. intros Hsub. destruct p as [|c p].
  - destruct (kind d cwd) as [[]|] eqn:Hk; [done| |done].
    by rewrite (kind_mono d d' cwd Dir Hsub Hk).
  - case_decide; by apply walk_from_mono.
Qed.

Lemma present_mono d d' p :
  d ⊆ d' → present cwd d p = true → present cwd d' p = true.
Proof.
  unfold present. intros Hsub.
  destruct (namei cwd d p) as [e|t] eqn:Hn; [done|].
  rewrite (namei_mono d d' p t Hsub Hn).
  intros [n Hk]%bool_decide_eq_true. apply bool_decide_eq_true.
  exists n. by eapply kind_mono.
Qed.

Lemma is_dir_present d p : is_dir cwd d p = true → present cwd d p = true.
Proof.
  unfold is_dir, present. destruct (namei cwd d p) as [e|t]; [done|].
  destruct (kind d t) as [[]|]; [done| |done].
  intros _. by apply bool_decide_eq_true.
Qed.

(** An absent path: the lookup failed, or got to a place with nothing. *)
Lemma absent_cases d p :
  present cwd d p = false →
  (∃ e, namei cwd d p = inl e)
  ∨ (∃ t, namei cwd d p = inr t ∧ kind d t = None).
Proof.
  unfold present. destruct (namei cwd d p) as [e|t]; [by left; eexists|].
  intros Hk%bool_decide_eq_false. right. exists t. split; [done|].
  by apply eq_None_not_Some.
Qed.

Lemma namei_plain_eq d q :
  plain_path q → q ≠ [] → namei cwd d q = walk_from d cwd q.
Proof.
  intros [Hroot _] Hne. destruct q as [|c q]; [done|]. simpl.
  rewrite decide_False; [done|]. intros ->. by destruct Hroot.
Qed.

Lemma namei_plain d q t :
  plain_path q → namei cwd d q = inr t →
  t = cwd ++ q
  ∧ ∀ k, k `prefix_of` q → k ≠ q → kind d (cwd ++ k) = Some Dir.
Proof.
  intros Hq. destruct (decide (q = [])) as [->|Hne].
  - simpl. rewrite app_nil_r. destruct (kind d cwd) as [[]|]; [done| |done].
    intros [= <-]. split; [done|]. by intros k ->%prefix_nil_inv.
  - rewrite namei_plain_eq by done. apply walk_plain, Hq.
Qed.

Lemma namei_plain_ok d q :
  plain_path q → kind d cwd = Some Dir →
  (∀ k, k `prefix_of` q → k ≠ q → kind d (cwd ++ k) = Some Dir) →
  namei cwd d q = inr (cwd ++ q).
Proof.
  intros Hq Hcwd. destruct (decide (q = [])) as [->|Hne].
  - simpl. by rewrite Hcwd, app_nil_r.
  - rewrite namei_plain_eq by done. apply walk_plain_ok, Hq.
Qed.


Lemma plain_path_take q n : plain_path q → plain_path (take n q).
Proof.
  intros [Hroot Hdots]. split.
  - destruct n, q; done.
  - intros Hin. destruct Hdots. rewrite <-(take_drop n q).
    apply elem_of_app. by left.
Qed.

Lemma plain_path_app q k :
  q ≠ [] → plain_path q → ".." ∉ k → plain_path (q ++ k).
Proof.
  intros Hne [Hroot Hdots] Hk. split.
  - by destruct q.
  - by intros [?|?]%elem_of_app.
Qed.

(** *** Disks that are trees *)

Lemma tree_like_parent d t :
  tree_like cwd d → is_Some (kind d t) → kind d (removelast t) = Some Dir.
Proof.
  intros [_ Htree] [n Hn]. destruct t as [|c t]; [done|].
  simpl in Hn. by apply (Htree _ _ Hn).
Qed.

(** In a tree, what is on the way to an entry is a directory. *)
Lemma tree_like_ancestors d t k :
  tree_like cwd d → is_Some (kind d t) → k `prefix_of` t → k ≠ t →
  kind d k = Some Dir.
Proof.
  intros Htree. revert k. induction t as [|c t IH] using rev_ind;
    intros k Ht Hpre Hne.
  { by apply prefix_nil_inv in Hpre. }
  pose proof (tree_like_parent d _ Htree Ht) as Hparent.
  rewrite removelast_last in Hparent.
  apply prefix_snoc_inv in Hpre as [Hpre|?]; [|done].
  destruct (decide (k = t)) as [->|Hkt]; [done|].
  apply IH; [by eexists|done..].
Qed.

Lemma tree_like_insert d t n :
  tree_like cwd d → kind d t = None → kind d (removelast t) = Some Dir →
  tree_like cwd (<[t := n]> d).
Proof.
  intros [Hcwd Htree] Ht Hparent. pose proof Ht as [Hne Hnone]%kind_None.
  assert (∀ q, kind d q = Some Dir → kind (<[t := n]> d) q = Some Dir) as Hkeep.
  { intros q Hq. rewrite kind_insert_ne; [done|]. intros ->. congruence. }
  split; [by apply Hkeep|].
  apply map_Forall_insert; [done|]. split; [by apply Hkeep|].
  intros q x Hq. by apply Hkeep, (Htree q x).
Qed.

Lemma tree_like_update d t c c' :
  tree_like cwd d → d !! t = Some (File c) →
  tree_like cwd (<[t := File c']> d).
Proof.
  intros [Hcwd Htree] Ht.
  assert (∀ q, kind d q = Some Dir → kind (<[t := File c']> d) q = Some Dir)
    as Hkeep.
  { intros [|x q] Hq; [done|]. simpl in *.
    destruct (decide (x :: q = t)) as [<-|]; [congruence|].
    by rewrite lookup_insert_ne. }
  split; [by apply Hkeep|].
  intros q x [[<- <-]|[Hqt Hq]]%lookup_insert_Some.
  - by apply Hkeep, (Htree t (File c)).
  - by apply Hkeep, (Htree q x).
Qed.

(** In a tree, a lookup that gets to a place with nothing gets to a
    place in a directory. *)
Lemma namei_new_parent d p t :
  tree_like cwd d → namei cwd d p = inr t → kind d t = None →
  kind d (removelast t) = Some Dir.
Proof.
  intros Htree Hn Ht.
  assert (∀ cur todo, kind d cur = Some Dir → walk_from d cur todo = inr t →
            kind d (removelast t) = Some Dir) as Hwalk.
  { intros cur todo Hcur [->|(cur' & c & Hdir & ->)]%walk_from_last;
      [congruence|].
    unfold step in *. case_decide.
    - assert (kind d (removelast cur') = Some Dir); [|congruence].
      apply tree_like_parent; [done|by eexists].
    - by rewrite removelast_last. }
  revert Hn. unfold namei. destruct p as [|c p].
  - destruct Htree as [Hcwd _]. rewrite Hcwd. intros [= <-]. congruence.
  - case_decide; apply Hwalk; [done|apply Htree].
Qed.

Lemma tree_like_present_walk d q :
  tree_like cwd d → plain_path q → is_Some (kind d (cwd ++ q)) →
  namei cwd d q = inr (cwd ++ q).
Proof.
  intros Htree Hq Hsome. apply namei_plain_ok; [done|by apply Htree|].
  intros k Hpre Hne. apply (tree_like_ancestors d (cwd ++ q)); [done..| |].
  - by apply prefix_app.
  - intros Heq. by apply app_inv_head in Heq.
Qed.



(** *** [mkdir] *)

Lemma os_mkdir_ok p d d' :
  os_mkdir cwd p d = inr d' →
  ∃ t, namei cwd d p = inr t ∧ kind d t = None ∧ d' = <[t := Dir]> d.
Proof.
  unfold os_mkdir. destruct (namei cwd d p) as [e|t]; [done|].
  destruct (kind d t) eqn:Hk; [done|]. intros [= <-]. by exists t.
Qed.

Lemma os_mkdir_err p d e :
  os_mkdir cwd p d = inl e →
  namei cwd d p = inl e
  ∨ (e = EEXIST ∧ ∃ t, namei cwd d p = inr t ∧ is_Some (kind d t)).
Proof.
  unfold os_mkdir. destruct (namei cwd d p) as [e'|t]; [by intros [= ->]; left|].
  destruct (kind d t) eqn:Hk; [|done]. intros [= <-]. right.
  split; [done|]. exists t. split; [done|by eexists].
Qed.




(** One attempt: [mkdir(parents=False, exist_ok=True)]. *)
Lemma mkdir_exist_ok_output q d : output (mkdir_exist_ok cwd q d) = [].
Proof.
  unfold mkdir_exist_ok. destruct (os_mkdir cwd q d) as [[]|]; try done;
    by destruct (is_dir cwd d q).
Qed.

Lemma mkdir_exist_ok_changes q d x :
  final (mkdir_exist_ok cwd q d) !! x = d !! x
  ∨ (d !! x = None ∧ final (mkdir_exist_ok cwd q d) !! x = Some Dir
     ∧ namei cwd d q = inr x).
Proof.
  unfold mkdir_exist_ok. destruct (os_mkdir cwd q d) as [[]|d'] eqn:Hm;
    try (left; done); try (left; by destruct (is_dir cwd d q)).
  apply os_mkdir_ok in Hm as (t & Hn & [Hne Hnone]%kind_None & ->). simpl.
  destruct (decide (x = t)) as [->|Hx].
  - right. by rewrite lookup_insert_eq.
  - left. by rewrite lookup_insert_ne.
Qed.

Lemma mkdir_exist_ok_subseteq q d : d ⊆ final (mkdir_exist_ok cwd q d).
Proof.
  apply map_subseteq_spec. intros x n Hx.
  destruct (mkdir_exist_ok_changes q d x) as [->|[? _]]; congruence.
Qed.

Lemma mkdir_exist_ok_is_dir q d :
  value (mkdir_exist_ok cwd q d) = inl () →
  is_dir cwd (final (mkdir_exist_ok cwd q d)) q = true.
Proof.
  unfold mkdir_exist_ok. destruct (os_mkdir cwd q d) as [[]|d'] eqn:Hm;
    try done; try (by destruct (is_dir cwd d q) eqn:Hd).
  intros _. apply os_mkdir_ok in Hm as (t & Hn & Hk & ->). simpl.
  unfold is_dir. pose proof Hk as [Hne _]%kind_None.
  rewrite (namei_mono d _ q t (insert_new_subseteq d t Dir Hk) Hn).
  by rewrite kind_insert.
Qed.

Lemma mkdir_exist_ok_raise q d e :
  value (mkdir_exist_ok cwd q d) = inr e → final (mkdir_exist_ok cwd q d) = d.
Proof.
  unfold mkdir_exist_ok. destruct (os_mkdir cwd q d) as [[]|d'] eqn:Hm;
    try done; by destruct (is_dir cwd d q).
Qed.

Lemma mkdir_exist_ok_tree_like q d :
  tree_like cwd d → tree_like cwd (final (mkdir_exist_ok cwd q d)).
Proof.
  intros Htree. unfold mkdir_exist_ok.
  destruct (os_mkdir cwd q d) as [[]|d'] eqn:Hm;
    try done; try (by destruct (is_dir cwd d q)).
  apply os_mkdir_ok in Hm as (t & Hn & Hk & ->). simpl.
  apply tree_like_insert; [done..|]. by eapply namei_new_parent.
Qed.


(** The recursion of [mkdir(parents=True)], by its first attempt. *)
Lemma mkdir_first_eq p n d :
  mkdir_first cwd p n d =
    match os_mkdir cwd (take n p) d with
    | inl ENOENT =>
        match n with
        | S n' =>
            if decide (parent (take n p) = take n p)
            then Result (inr (FileNotFoundError (take n p))) d []
            else (mkdir_first cwd p n';; mkdir_exist_ok cwd (take n p)) d
        | O => Result (inr (FileNotFoundError (take n p))) d []
        end
    | _ => mkdir_exist_ok cwd (take n p) d
    end.
Proof.
  destruct n; simpl; unfold mkdir_exist_ok;
    by destruct (os_mkdir cwd _ d) as [[]|].
Qed.

Lemma mkdir_first_output p n d : output (mkdir_first cwd p n d) = [].
Proof.
  revert d. induction n as [|n IH]; intros d; rewrite mkdir_first_eq.
  - destruct (os_mkdir cwd _ d) as [[]|]; try done;
      apply mkdir_exist_ok_output.
  - destruct (os_mkdir cwd _ d) as [[]|]; try apply mkdir_exist_ok_output.
    case_decide; [done|]. rewrite bind_run, IH.
    destruct (value (mkdir_first cwd p n d)); [|done]. cbn [output app].
    apply mkdir_exist_ok_output.
Qed.

Lemma prefix_of_take_inv {A : Type} (k p : list A) (n : nat) :
  k `prefix_of` take n p → ∃ j, (j ≤ n)%nat ∧ k = take j p.
Proof.
  intros [rest Hk]. exists (length k `min` n)%nat. split; [lia|].
  apply (f_equal (take (length k))) in Hk.
  rewrite take_take, take_app_length in Hk. done.
Qed.

(** What [mkdir] adds are directories on the way to the path. *)
Lemma mkdir_first_changes p n d x :
  plain_path p →
  final (mkdir_first cwd p n d) !! x = d !! x
  ∨ (d !! x = None ∧ final (mkdir_first cwd p n d) !! x = Some Dir
     ∧ ∃ k, (k ≤ n)%nat ∧ x = cwd ++ take k p).
Proof.
  intros Hp.
  assert (∀ d0 m,
            final (mkdir_exist_ok cwd (take m p) d0) !! x = d0 !! x
            ∨ (d0 !! x = None
               ∧ final (mkdir_exist_ok cwd (take m p) d0) !! x = Some Dir
               ∧ ∃ k, (k ≤ m)%nat ∧ x = cwd ++ take k p)) as Hone.
  { intros d0 m.
    destruct (mkdir_exist_ok_changes (take m p) d0 x) as [?|(?&?&Hn)];
      [by left|right].
    split; [done|]. split; [done|]. exists m. split; [done|].
    by apply namei_plain in Hn as [-> _]; [|apply plain_path_take]. }
  revert d. induction n as [|n IH]; intros d; rewrite mkdir_first_eq.
  - destruct (os_mkdir cwd _ d) as [[]|]; try (by left); by apply Hone.
  - destruct (os_mkdir cwd _ d) as [[]|]; try (by apply Hone).
    case_decide; [by left|]. rewrite bind_run.
    assert (final (mkdir_first cwd p n d) !! x = d !! x
            ∨ (d !! x = None ∧ final (mkdir_first cwd p n d) !! x = Some Dir
               ∧ ∃ k, (k ≤ S n)%nat ∧ x = cwd ++ take k p)) as Hrec.
    { destruct (IH d) as [?|(?&?&k&?&?)]; [by left|right].
      split; [done|]. split; [done|]. exists k. split; [lia|done]. }
    destruct (value (mkdir_first cwd p n d)); [|done]. cbn [final].
    destruct (Hone (final (mkdir_first cwd p n d)) (S n))
      as [Heq|(Hnone & Hdir & Hk)].
    + by rewrite Heq.
    + right. split; [|done]. destruct Hrec as [<-|[? _]]; done.
Qed.

Lemma mkdir_first_subseteq p n d : d ⊆ final (mkdir_first cwd p n d).
Proof.
  revert d. induction n as [|n IH]; intros d; rewrite mkdir_first_eq.
  - destruct (os_mkdir cwd _ d) as [[]|]; try done;
      apply mkdir_exist_ok_subseteq.
  - destruct (os_mkdir cwd _ d) as [[]|]; try apply mkdir_exist_ok_subseteq.
    case_decide; [done|]. rewrite bind_run.
    pose proof (IH d) as Hsub.
    destruct (value (mkdir_first cwd p n d)); [|done]. cbn [final].
    etrans; [done|apply mkdir_exist_ok_subseteq].
Qed.

(** [mkdir] never makes the working directory itself. *)
Lemma mkdir_exist_ok_keeps_cwd q d :
  plain_path q → final (mkdir_exist_ok cwd q d) !! cwd = d !! cwd.
Proof.
  intros Hq. unfold mkdir_exist_ok.
  destruct (os_mkdir cwd q d) as [[]|d'] eqn:Hm;
    try done; try (by destruct (is_dir cwd d q)).
  apply os_mkdir_ok in Hm as (t & Hn & Hk & ->). simpl.
  apply lookup_insert_ne. intros ->.
  pose proof Hn as Hn'. apply namei_plain in Hn' as [Heq _]; [|done].
  rewrite <-(app_nil_r cwd) in Heq at 1. apply app_inv_head in Heq as <-.
  simpl in Hn. rewrite Hk in Hn. done.
Qed.

Lemma mkdir_first_keeps_cwd p n d :
  plain_path p → final (mkdir_first cwd p n d) !! cwd = d !! cwd.
Proof.
  intros Hp. revert d. induction n as [|n IH]; intros d; rewrite mkdir_first_eq.
  - destruct (os_mkdir cwd _ d) as [[]|]; try done;
      by apply mkdir_exist_ok_keeps_cwd, plain_path_take.
  - destruct (os_mkdir cwd _ d) as [[]|];
      try (by apply mkdir_exist_ok_keeps_cwd, plain_path_take).
    case_decide; [done|]. rewrite bind_run.
    pose proof (IH d) as Hsame.
    destruct (value (mkdir_first cwd p n d)); [|done]. cbn [final].
    rewrite <-Hsame. by apply mkdir_exist_ok_keeps_cwd, plain_path_take.
Qed.

(** A [mkdir] that returns leaves a directory at the path. *)
Lemma mkdir_first_is_dir p n d :
  value (mkdir_first cwd p n d) = inl () →
  is_dir cwd (final (mkdir_first cwd p n d)) (take n p) = true.
Proof.
  rewrite mkdir_first_eq.
  destruct (os_mkdir cwd _ d) as [[]|]; try apply mkdir_exist_ok_is_dir.
  destruct n as [|n]; [done|]. case_decide; [done|]. rewrite bind_run.
  destruct (value (mkdir_first cwd p n d)); [|done]. cbn [value final].
  apply mkdir_exist_ok_is_dir.
Qed.

Lemma mkdir_first_tree_like p n d :
  tree_like cwd d → tree_like cwd (final (mkdir_first cwd p n d)).
Proof.
  revert d. induction n as [|n IH]; intros d Htree; rewrite mkdir_first_eq.
  - destruct (os_mkdir cwd _ d) as [[]|]; try done;
      by apply mkdir_exist_ok_tree_like.
  - destruct (os_mkdir cwd _ d) as [[]|];
      try (by apply mkdir_exist_ok_tree_like).
    case_decide; [done|]. rewrite bind_run.
    pose proof (IH d Htree) as Hrec.
    destruct (value (mkdir_first cwd p n d)); [|done]. cbn [final].
    by apply mkdir_exist_ok_tree_like.
Qed.


(** In a tree, [mkdir] either returns or leaves the disk as it was; it
    returns when no regular file is on the way. *)
Lemma mkdir_first_retry p n d :
  tree_like cwd d → plain_path p → (S n ≤ length p)%nat →
  os_mkdir cwd (take (S n) p) d = inl ENOENT →
  value (mkdir_first cwd p n d) = inl () →
  value (mkdir_exist_ok cwd (take (S n) p) (final (mkdir_first cwd p n d)))
    = inl ().
Proof.
  intros Htree Hp Hlen Hm Hv.
  set (d1 := final (mkdir_first cwd p n d)).
  pose proof (mkdir_first_is_dir p n d Hv) as Hdir. fold d1 in Hdir.
  unfold is_dir in Hdir.
  destruct (namei cwd d1 (take n p)) as [e|t] eqn:Hn; [done|].
  apply namei_plain in Hn as [-> Hdirs]; [|by apply plain_path_take].
  destruct (kind d1 (cwd ++ take n p)) as [[]|] eqn:Hk; [done| |done].
  destruct (lookup_lt_is_Some_2 p n) as [c Hc]; [lia|].
  assert (take (S n) p = take n p ++ [c]) as Hsnoc
    by (by erewrite take_S_r).
  assert (namei cwd d1 (take (S n) p) = inr (cwd ++ take (S n) p)) as Hn'.
  { apply namei_plain_ok; [by apply plain_path_take| |].
    { eapply kind_mono; [apply mkdir_first_subseteq|apply Htree]. }
    intros k Hpre Hne. rewrite Hsnoc in Hpre, Hne.
    apply prefix_snoc_inv in Hpre as [Hpre|?]; [|done].
    destruct (decide (k = take n p)) as [->|Hk']; [done|by apply Hdirs]. }
  assert (kind d (cwd ++ take (S n) p) = None) as Hnone.
  { apply eq_None_not_Some. intros Hsome.
    apply os_mkdir_err in Hm as [Herr|[? _]]; [|done].
    rewrite tree_like_present_walk in Herr; [done..| |done].
    by apply plain_path_take. }
  assert (kind d1 (cwd ++ take (S n) p) = None) as Hnone1.
  { apply kind_None in Hnone as [Hne Hnone]. rewrite kind_lookup by done.
    unfold d1.
    destruct (mkdir_first_changes p n d (cwd ++ take (S n) p) Hp)
      as [->|(_ & _ & k & Hk' & Heq)]; [done|].
    apply app_inv_head in Heq. apply (f_equal length) in Heq.
    rewrite !length_take in Heq. lia. }
  unfold mkdir_exist_ok, os_mkdir. by rewrite Hn', Hnone1.
Qed.

Lemma mkdir_first_raise p n d e :
  tree_like cwd d → plain_path p → (n ≤ length p)%nat →
  value (mkdir_first cwd p n d) = inr e →
  final (mkdir_first cwd p n d) = d.
Proof.
  intros Htree Hp. revert e. induction n as [|n IH]; intros e Hlen;
    rewrite mkdir_first_eq.
  - destruct (os_mkdir cwd _ d) as [[]|]; try done;
      apply mkdir_exist_ok_raise.
  - destruct (os_mkdir cwd _ d) as [[]|] eqn:Hm;
      try apply mkdir_exist_ok_raise.
    case_decide; [done|]. rewrite bind_run.
    pose proof (mkdir_first_retry p n d Htree Hp Hlen Hm) as Hretry.
    destruct (value (mkdir_first cwd p n d)) as [[]|e'] eqn:Hv;
      cbn [value final].
    + rewrite Hretry by done. done.
    + intros _. apply (IH e'); [lia|done].
Qed.

Lemma removelast_ne {A : Type} (q : list A) : q ≠ [] → removelast q ≠ q.
Proof.
  destruct q as [|c q _] using rev_ind; [done|]. intros _.
  rewrite removelast_last. intros Heq. apply (f_equal length) in Heq.
  rewrite length_app in Heq. simpl in Heq. lia.
Qed.

Lemma removelast_prefix {A : Type} (q : list A) : removelast q `prefix_of` q.
Proof.
  destruct q as [|c q _] using rev_ind; [done|].
  rewrite removelast_last. by apply prefix_app_r.
Qed.

Lemma take_S_ne_nil {A : Type} (p : list A) n :
  (S n ≤ length p)%nat → take (S n) p ≠ [].
Proof. destruct p; simpl; [lia|done]. Qed.

Lemma mkdir_first_ok p n d :
  tree_like cwd d → plain_path p → (n ≤ length p)%nat →
  (∀ k c, (k ≤ n)%nat → d !! (cwd ++ take k p) ≠ Some (File c)) →
  value (mkdir_first cwd p n d) = inl ().
Proof.
  intros Htree Hp. induction n as [|n IH]; intros Hlen Hfree.
  - rewrite mkdir_first_eq.
    destruct Htree as [Hcwd _].
    assert (namei cwd d (take 0 p) = inr cwd) as Hn
      by (simpl; by rewrite Hcwd).
    unfold mkdir_exist_ok, os_mkdir, is_dir. by rewrite Hn, Hcwd.
  - assert (value (mkdir_exist_ok cwd (take (S n) p) d) = inl ()
            ∨ os_mkdir cwd (take (S n) p) d = inl ENOENT) as [Hone|Hm].
    { unfold mkdir_exist_ok.
      destruct (os_mkdir cwd (take (S n) p) d) as [[]|] eqn:Hm;
        [by right| | |by left].
      - apply os_mkdir_err in Hm as [Herr|[? _]]; [|done].
        rewrite namei_plain_eq in Herr
          by (by apply plain_path_take || by apply take_S_ne_nil).
        apply walk_plain_stopped in Herr
          as (k & (j & Hj & ->)%prefix_of_take_inv & Hne & c & Hk);
          [|by apply plain_path_take].
        destruct (decide (j = 0)%nat) as [->|Hj0].
        { rewrite take_0, app_nil_r in Hk. destruct Htree. congruence. }
        rewrite kind_lookup in Hk.
        { by destruct (Hfree j c Hj). }
        intros [_ Hnil]%app_eq_nil. apply (f_equal length) in Hnil.
        rewrite length_take_le in Hnil by lia. simpl in Hnil. lia.
      - apply os_mkdir_err in Hm as [Herr|[_ (t & Hn & [x Hx])]].
        { rewrite namei_plain_eq in Herr
            by (by apply plain_path_take || by apply take_S_ne_nil).
          by apply walk_plain_stopped in Herr as (? & _ & _ & ?);
            [|apply plain_path_take]. }
        left. unfold is_dir. rewrite Hn.
        apply namei_plain in Hn as [-> _]; [|by apply plain_path_take].
        rewrite Hx. destruct x as [c|]; [|done].
        rewrite kind_lookup in Hx.
        { by destruct (Hfree (S n) c). }
        intros [_ Hnil]%app_eq_nil. apply (f_equal length) in Hnil.
        rewrite length_take_le in Hnil by lia. simpl in Hnil. lia. }
    + rewrite mkdir_first_eq.
      destruct (os_mkdir cwd (take (S n) p) d) as [[]|] eqn:Hm; try done.
      unfold mkdir_exist_ok in Hone. by rewrite Hm in Hone.
    + rewrite mkdir_first_eq, Hm.
      assert (parent (take (S n) p) ≠ take (S n) p) as Hparent.
      { unfold parent. destruct (lookup_lt_is_Some_2 p n) as [c Hc]; [lia|].
        erewrite take_S_r by done. case_decide as Hroot.
        - destruct (plain_path_take p (S n) Hp) as [Hhead _].
          erewrite take_S_r in Hhead by done. rewrite Hroot in Hhead.
          by destruct Hhead.
        - rewrite removelast_last. intros Heq.
          apply (f_equal length) in Heq. rewrite length_app in Heq.
          simpl in Heq. lia. }
      rewrite decide_False by done. rewrite bind_run.
      assert (value (mkdir_first cwd p n d) = inl ()) as Hv.
      { apply IH; [lia|]. intros k c Hk. apply Hfree. lia. }
      rewrite Hv. cbn [value].
      by apply mkdir_first_retry.
Qed.

End at_cwd.

End PathlibFacts.

(** ** Facts about formatted names *)

Lemma str_all_app P s1 s2 : str_all P s1 → str_all P s2 → str_all P (s1 +:+ s2).
Proof.
  intros H1 H2. induction s1 as [|c s1 IH]; [done|].
  destruct H1 as [Hc H1]. split; [done|]. by apply IH.
Qed.

Lemma str_all_impl (P Q : ascii → Prop) s :
  (∀ c, P c → Q c) → str_all P s → str_all Q s.
Proof.
  intros HPQ. induction s as [|c s IH]; [done|]. intros [Hc Hs].
  split; auto.
Qed.

Lemma pretty_N_char_numeral x : numeral (pretty_N_char x) = true.
Proof.
  unfold pretty_N_char. destruct x as [|p]; [done|].
  repeat (destruct p as [p|p|]; try done).
Qed.

Lemma pretty_N_go_numeral x :
  ∀ s, str_all (λ c, numeral c = true) s →
       str_all (λ c, numeral c = true) (pretty_N_go x s).
Proof.
  induction x as [x IH] using (well_founded_induction N.lt_wf_0). intros s Hs.
  destruct (decide (x = 0)%N) as [->|Hx]; [by rewrite pretty_N_go_0|].
  rewrite pretty_N_go_step by lia. apply IH.
  - apply N.div_lt; lia.
  - split; [apply pretty_N_char_numeral|done].
Qed.

(** The decimal form of an integer has digits and a sign, nothing else. *)
Lemma pretty_Z_numeral (z : Z) : str_all (λ c, numeral c = true) (pretty z).
Proof.
  assert (∀ n : N, str_all (λ c, numeral c = true) (pretty n)) as HN.
  { intros n. unfold pretty, pretty_N. case_decide; [done|].
    by apply pretty_N_go_numeral. }
  destruct z as [|p|p]; [done|apply (HN (Npos p))|].
  split; [done|apply (HN (Npos p))].
Qed.

Lemma pretty_Z_avoids (sep : ascii) (z : Z) :
  numeral sep = false → str_all (λ c, c ≠ sep) (pretty z).
Proof.
  intros Hsep. eapply str_all_impl; [|apply pretty_Z_numeral].
  intros c Hc ->. congruence.
Qed.

Lemma split_slash_no_slash s :
  str_all (λ c, c ≠ "/"%char) s → Pathlib.split_slash s = [s].
Proof.
  induction s as [|c s IH]; [done|]. intros [Hc Hs]. simpl.
  rewrite IH by done. by apply Ascii.eqb_neq in Hc as ->.
Qed.

(** A name without slash that is neither empty nor a lone dot is one
    part of a path. *)
Lemma parts_single c s :
  c ≠ "/"%char → c ≠ "."%char → str_all (λ c, c ≠ "/"%char) s →
  Pathlib.parts (String c s) = [String c s].
Proof.
  intros Hslash Hdot Hs. unfold Pathlib.parts.
  rewrite split_slash_no_slash by done.
  rewrite filter_cons_True; [done|]. split; [done|]. intros [=]. done.
Qed.

(** Two strings [a], a separator, [b] with no separator in [a] are equal
    only if both halves are. *)
Lemma sep_inj (sep : ascii) a a' b b' :
  str_all (λ c, c ≠ sep) a → str_all (λ c, c ≠ sep) a' →
  a +:+ String sep b = a' +:+ String sep b' → a = a' ∧ b = b'.
Proof.
  revert a'. induction a as [|c a IH]; intros [|c' a'] Ha Ha' Heq.
  - by injection Heq.
  - injection Heq as Hc _. destruct Ha' as [Hu _]. by destruct Hu.
  - injection Heq as Hc _. destruct Ha as [Hu _]. by destruct Hu.
  - injection Heq as -> Heq. destruct Ha as [_ Ha], Ha' as [_ Ha'].
    destruct (IH a' Ha Ha' Heq) as [-> ->]. done.
Qed.

(** The formatted names of a period determine the period. *)
Lemma period_name_inj (sep : ascii) (tail : string) (yr qtr yr' qtr' : Z) :
  numeral sep = false →
  pretty yr +:+ String sep (pretty qtr +:+ "_" +:+ tail)
    = pretty yr' +:+ String sep (pretty qtr' +:+ "_" +:+ tail) →
  (yr, qtr) = (yr', qtr').
Proof.
  intros Hsep Heq.
  apply sep_inj in Heq as [Hy Hq]; [|by apply pretty_Z_avoids..].
  apply (sep_inj "_"%char) in Hq as [Hq _]; [|by apply pretty_Z_avoids..].
  by apply (inj pretty) in Hy, Hq; subst.
Qed.

Lemma quarter_dir_parts yr qtr :
  quarter_dir yr qtr = ["data"; pretty yr +:+ "_" +:+ pretty qtr; "source"].
Proof.
  unfold quarter_dir, Pathlib.div.
  assert (str_all (λ c, c ≠ "/"%char ∧ c ≠ "."%char)
            (pretty yr +:+ "_" +:+ pretty qtr)) as Hall.
  { apply str_all_app; [|split; [done|]];
      (eapply str_all_impl; [|apply pretty_Z_numeral]);
      intros c Hc; split; intros ->; done. }
  destruct (pretty yr +:+ "_" +:+ pretty qtr) as [|c s] eqn:Hname.
  - destruct (pretty yr); discriminate.
  - destruct Hall as [[Hslash Hdot] Hs].
    assert (Pathlib.is_absolute (String c s) = false) as ->
      by (by apply Ascii.eqb_neq).
    rewrite parts_single; [done..|].
    eapply str_all_impl; [|done]. by intros ? [? _].
Qed.

(** The quarter directory is looked up from the working directory
    downwards. *)
Lemma quarter_dir_plain yr qtr : plain_path (quarter_dir yr qtr).
Proof.
  rewrite quarter_dir_parts. split; [done|].
  intros [?|[Hin|[?|?%elem_of_nil]%elem_of_cons]%elem_of_cons]%elem_of_cons;
    try done.
  assert (str_all (λ c, c ≠ "."%char) (pretty yr +:+ "_" +:+ pretty qtr))
    as Hall.
  { apply str_all_app; [by apply pretty_Z_avoids|].
    split; [done|by apply pretty_Z_avoids]. }
  rewrite <-Hin in Hall. by destruct Hall as [? _].
Qed.

(** Different periods have different quarter directories, and different
    URLs. *)
Lemma quarter_dir_inj yr qtr yr' qtr' :
  quarter_dir yr qtr = quarter_dir yr' qtr' → (yr, qtr) = (yr', qtr').
Proof.
  rewrite !quarter_dir_parts. intros [= Heq].
  apply sep_inj in Heq as [Hy Hq]; [|by apply pretty_Z_avoids..].
  by apply (inj pretty) in Hy, Hq; subst.
Qed.

Lemma filing_url_inj yr qtr yr' qtr' :
  filing_url yr qtr = filing_url yr' qtr' → (yr, qtr) = (yr', qtr').
Proof.
  unfold filing_url, filing_name. intros Heq.
  do 2 apply (inj (String.append _)) in Heq.
  by apply (period_name_inj "q"%char "notes.zip") in Heq.
Qed.

Lemma quarter_dir_length yr qtr : length (quarter_dir yr qtr) = 3%nat.
Proof. by rewrite quarter_dir_parts. Qed.

(** The pieces of a path string have no slash in them, so no part of a
    path is the root. *)
Lemma split_slash_pieces s :
  Forall (str_all (λ c, c ≠ "/"%char)) (Pathlib.split_slash s).
Proof.
  induction s as [|c s IH]; [by repeat constructor|]. simpl.
  destruct (Ascii.eqb c "/") eqn:Hc; [by constructor|].
  apply Ascii.eqb_neq in Hc.
  destruct (Pathlib.split_slash s) as [|hd tl]; [by repeat constructor|].
  apply Forall_cons in IH as [Hhd Htl]. by repeat constructor.
Qed.

Lemma parts_not_root s : Pathlib.root ∉ Pathlib.parts s.
Proof.
  unfold Pathlib.parts. intros [_ Hin]%list_elem_of_filter.
  pose proof (split_slash_pieces s) as Hall.
  rewrite Forall_forall in Hall. by destruct (Hall _ Hin) as [? _].
Qed.

(** ** Facts about the archive fetcher *)

Section FetcherFacts.

Import Pathlib PathlibFacts.

Variable cwd : path.
Variable http_get : string → bytes + exn.
Variable unzip : bytes → Zip.ZipFile + exn.

Abbreviation ensure_dir := (ensure_dir cwd).
Abbreviation extract_member := (extract_member cwd).
Abbreviation extract_all := (extract_all cwd).
Abbreviation extract_archive := (extract_archive cwd unzip).
Abbreviation fetch_period := (fetch_period cwd http_get unzip).
Abbreviation fetch_filing_data := (fetch_filing_data cwd http_get unzip).
Abbreviation present := (Pathlib.present cwd).
Abbreviation namei := (Pathlib.namei cwd).
Abbreviation tree_like := (tree_like cwd).

(** *** The directory step *)

Lemma ensure_dir_eq dir d :
  ensure_dir dir d =
    if present d dir then Result (inl ()) d []
    else mkdir_first cwd dir (length dir) d.
Proof.
  unfold ensure_dir. rewrite bind_run. unfold exists_. run_simpl.
  destruct (present d dir); simpl; [done|].
  unfold mkdir. apply result_eta.
Qed.

Lemma ensure_dir_output dir d : output (ensure_dir dir d) = [].
Proof.
  rewrite ensure_dir_eq. destruct (present d dir); [done|].
  apply mkdir_first_output.
Qed.

Lemma ensure_dir_subseteq dir d : d ⊆ final (ensure_dir dir d).
Proof.
  rewrite ensure_dir_eq. destruct (present d dir); [done|].
  apply mkdir_first_subseteq.
Qed.

Lemma ensure_dir_keeps_cwd dir d :
  plain_path dir → final (ensure_dir dir d) !! cwd = d !! cwd.
Proof.
  intros Hdir. rewrite ensure_dir_eq. destruct (present d dir); [done|].
  by apply mkdir_first_keeps_cwd.
Qed.

Lemma ensure_dir_present dir d :
  value (ensure_dir dir d) = inl () → present (final (ensure_dir dir d)) dir = true.
Proof.
  rewrite ensure_dir_eq. destruct (present d dir) eqn:Hd; [done|].
  intros Hv%mkdir_first_is_dir. rewrite firstn_all in Hv.
  by apply is_dir_present.
Qed.

(** What the step adds are directories on the way to [dir]. *)
Lemma ensure_dir_changes dir d x :
  plain_path dir →
  final (ensure_dir dir d) !! x = d !! x
  ∨ (d !! x = None ∧ final (ensure_dir dir d) !! x = Some Dir
     ∧ ∃ k, k `prefix_of` dir ∧ x = cwd ++ k).
Proof.
  intros Hdir. rewrite ensure_dir_eq. destruct (present d dir); [by left|].
  destruct (mkdir_first_changes cwd dir (length dir) d x Hdir)
    as [?|(? & ? & k & _ & ->)]; [by left|right].
  split; [done|]. split; [done|]. exists (take k dir).
  split; [apply prefix_take|done].
Qed.

Lemma ensure_dir_tree_like dir d :
  tree_like d → tree_like (final (ensure_dir dir d)).
Proof.
  intros Htree. rewrite ensure_dir_eq. destruct (present d dir); [done|].
  by apply mkdir_first_tree_like.
Qed.

(** In a tree the step either returns or leaves the disk as it was, so
    it does the same when it is run again. *)
Lemma ensure_dir_again dir d :
  tree_like d → plain_path dir →
  ensure_dir dir (final (ensure_dir dir d)) = ensure_dir dir d.
Proof.
  intros Htree Hdir. destruct (value (ensure_dir dir d)) as [[]|e] eqn:Hv.
  - rewrite (ensure_dir_eq dir (final _)), ensure_dir_present by done.
    rewrite <-Hv, <-(ensure_dir_output dir d). by rewrite result_eta.
  - revert Hv. rewrite (ensure_dir_eq dir d).
    destruct (present d dir) eqn:Hd; [done|]. intros Hv.
    rewrite (mkdir_first_raise cwd dir (length dir) d e) by done.
    by rewrite ensure_dir_eq, Hd.
Qed.

Lemma ensure_dir_ok dir d :
  tree_like d → plain_path dir →
  (∀ k c, k `prefix_of` dir → d !! (cwd ++ k) ≠ Some (File c)) →
  value (ensure_dir dir d) = inl ().
Proof.
  intros Htree Hdir Hfree. rewrite ensure_dir_eq.
  destruct (present d dir); [done|].
  apply mkdir_first_ok; [done..|]. intros k c _. apply Hfree, prefix_take.
Qed.

(** After the step the directory is there, with all on the way to it,
    unless a regular file had its place. *)
Lemma ensure_dir_is_dir dir d k :
  plain_path dir → dir ≠ [] →
  (∀ c, d !! (cwd ++ dir) ≠ Some (File c)) →
  value (ensure_dir dir d) = inl () →
  k `prefix_of` dir →
  kind (final (ensure_dir dir d)) (cwd ++ k) = Some Dir.
Proof.
  intros Hdir Hne Hfree Hv Hk.
  pose proof (ensure_dir_present dir d Hv) as Hp.
  assert (kind d (cwd ++ dir) = Some Dir
          ∨ d !! (cwd ++ dir) = None
          → ∀ c, final (ensure_dir dir d) !! (cwd ++ dir) ≠ Some (File c))
    as Hfree'.
  { intros Hd c Hc.
    destruct (ensure_dir_changes dir d (cwd ++ dir) Hdir) as [Heq|(_ & ? & _)];
      [|congruence].
    rewrite Heq in Hc. by destruct (Hfree c). }
  unfold present in Hp.
  destruct (namei (final (ensure_dir dir d)) dir) as [e|t] eqn:Hn; [done|].
  apply namei_plain in Hn as [-> Hdirs]; [|done].
  destruct (decide (k = dir)) as [->|Hkd]; [|by apply Hdirs].
  apply bool_decide_eq_true in Hp as [[c|] Hx]; [|done].
  rewrite kind_lookup in Hx by (by intros [_ ?]%app_eq_nil).
  destruct (Hfree' ltac:(destruct (d !! (cwd ++ dir)) as [[]|] eqn:Hd;
                          [by destruct (Hfree content)
                          |left; by rewrite kind_lookup
                             by (by intros [_ ?]%app_eq_nil)
                          |by right]) c Hx).
Qed.


(** *** The extraction loop *)

(** Writing the lines of a member appends them all. *)
Lemma write_lines t lines c d :
  d !! t = Some (File c) →
  for_each lines (write t) d
    = Result (inl ()) (<[t := File (c ++ concat lines)]> d) [].
Proof.
  revert c d. induction lines as [|l lines IH]; intros c d Ht; simpl.
  - by rewrite app_nil_r, insert_id.
  - assert (write t l d = Result (inl ()) (<[t := File (c ++ l)]> d) []) as Hw.
    { unfold write. by rewrite Ht. }
    rewrite bind_run, Hw. simpl.
    rewrite (IH (c ++ l)) by apply lookup_insert_eq. simpl.
    by rewrite insert_insert_eq, app_assoc.
Qed.

Lemma concat_readlines (bs : bytes) : concat (Zip.readlines bs) = bs.
Proof.
  induction bs as [|b bs IH]; [done|]. simpl.
  destruct (Byte.eqb b Byte.x0a); [by rewrite <-IH at 2|].
  destruct (Zip.readlines bs) as [|l ls]; simpl in *; by rewrite <-IH.
Qed.

(** One member: it is passed over when something is at its path;
    otherwise its file is created where the lookup of the path gets to,
    and then filled, or left empty when the member cannot be read. *)
Lemma extract_member_eq dir z file d :
  extract_member dir z file d =
    let q := dir // file in
    if present d q then Result (inl ()) d []
    else match namei d q with
         | inl e => Result (inr (os_error e q)) d []
         | inr t =>
             match Zip.read z file with
             | inl content => Result (inl ()) (<[t := File content]> d) []
             | inr x => Result (inr x) (<[t := File []]> d) []
             end
         end.
Proof.
  unfold extract_member. rewrite bind_run. unfold exists_. run_simpl.
  cbn zeta. destruct (present d (dir // file)) eqn:Hp; [done|].
  rewrite bind_run. unfold open_wb.
  destruct (absent_cases cwd d _ Hp) as [[e He]|(t & Ht & Hk)].
  { by rewrite He. }
  rewrite Ht, Hk. run_simpl. rewrite bind_run. unfold lift. run_simpl.
  destruct (Zip.read z file) as [content|x]; [|done].
  rewrite (write_lines _ _ []) by apply lookup_insert_eq. run_simpl.
  by rewrite insert_insert_eq, concat_readlines.
Qed.

Lemma extract_loop_cons dir z file names d :
  for_each (file :: names) (extract_member dir z) d =
    let r := extract_member dir z file d in
    match value r with
    | inl _ => for_each names (extract_member dir z) (final r)
    | inr x => Result (inr x) (final r) []
    end.
Proof.
  rewrite for_each_cons, bind_run. cbn zeta.
  assert (output (extract_member dir z file d) = []) as ->.
  { rewrite extract_member_eq. cbn zeta. destruct (present d _); [done|].
    destruct (namei d _); [done|]. by destruct (Zip.read z file). }
  destruct (value (extract_member dir z file d)); [|done].
  apply result_eta.
Qed.

(** What a member adds is one regular file, at a place where nothing
    was. *)
Lemma extract_member_changes dir z file d x :
  final (extract_member dir z file d) !! x = d !! x
  ∨ (d !! x = None ∧ namei d (dir // file) = inr x
     ∧ present d (dir // file) = false
     ∧ match Zip.read z file with
       | inl content =>
           final (extract_member dir z file d) !! x = Some (File content)
       | inr _ => final (extract_member dir z file d) !! x = Some (File [])
       end).
Proof.
  rewrite extract_member_eq. cbn zeta.
  destruct (present d (dir // file)) eqn:Hp; [by left|].
  destruct (absent_cases cwd d _ Hp) as [[e He]|(t & Ht & [Hne Hnone]%kind_None)].
  { rewrite He. by left. }
  rewrite Ht. destruct (decide (x = t)) as [->|Hx].
  - right. split; [done|]. split; [done|]. split; [done|].
    destruct (Zip.read z file); cbn [final]; by rewrite lookup_insert_eq.
  - left. destruct (Zip.read z file); cbn [final]; by rewrite lookup_insert_ne.
Qed.

Lemma extract_member_subseteq dir z file d :
  d ⊆ final (extract_member dir z file d).
Proof.
  apply map_subseteq_spec. intros x n Hx.
  destruct (extract_member_changes dir z file d x) as [->|[? _]]; congruence.
Qed.

Lemma extract_member_tree_like dir z file d :
  tree_like d → tree_like (final (extract_member dir z file d)).
Proof.
  intros Htree. rewrite extract_member_eq. cbn zeta.
  destruct (present d (dir // file)) eqn:Hp; [done|].
  destruct (absent_cases cwd d _ Hp) as [[e He]|(t & Ht & Hk)].
  { by rewrite He. }
  rewrite Ht.
  destruct (Zip.read z file); cbn [final];
    (apply tree_like_insert; [done..|by eapply namei_new_parent]).
Qed.

Lemma extract_loop_output dir z names d :
  output (for_each names (extract_member dir z) d) = [].
Proof.
  revert d. induction names as [|file names IH]; intros d; [done|].
  rewrite extract_loop_cons. cbn zeta.
  by destruct (value (extract_member dir z file d)).
Qed.

Lemma extract_loop_subseteq dir z names d :
  d ⊆ final (for_each names (extract_member dir z) d).
Proof.
  revert d. induction names as [|file names IH]; intros d; [done|].
  rewrite extract_loop_cons. cbn zeta.
  pose proof (extract_member_subseteq dir z file d) as Hsub.
  destruct (value (extract_member dir z file d)); [|done].
  etrans; [done|apply IH].
Qed.

Lemma extract_loop_tree_like dir z names d :
  tree_like d → tree_like (final (for_each names (extract_member dir z) d)).
Proof.
  revert d. induction names as [|file names IH]; intros d Htree; [done|].
  rewrite extract_loop_cons. cbn zeta.
  pose proof (extract_member_tree_like dir z file d Htree) as Hstep.
  destruct (value (extract_member dir z file d)); [|done].
  by apply IH.
Qed.

(** Whatever the loop changes is a new regular file. *)
Lemma extract_loop_changes dir z names d x :
  final (for_each names (extract_member dir z) d) !! x = d !! x
  ∨ (d !! x = None
     ∧ ∃ c, final (for_each names (extract_member dir z) d) !! x
              = Some (File c)).
Proof.
  revert d. induction names as [|file names IH]; intros d; [by left|].
  rewrite extract_loop_cons. cbn zeta.
  assert (final (extract_member dir z file d) !! x = d !! x
          ∨ (d !! x = None
             ∧ ∃ c, final (extract_member dir z file d) !! x = Some (File c)))
    as Hstep.
  { destruct (extract_member_changes dir z file d x) as [?|(?&_&_&Hc)];
      [by left|right]. split; [done|].
    destruct (Zip.read z file); by eexists. }
  destruct (value (extract_member dir z file d)); [|done].
  destruct (IH (final (extract_member dir z file d))) as [->|[Hnone Hc]];
    [done|].
  right. split; [|done]. destruct Hstep as [<-|[? [c Hc']]]; [done|congruence].
Qed.

(** A loop that went through left something at the path of every
    member. *)
Lemma extract_loop_all_present dir z names d name :
  value (for_each names (extract_member dir z) d) = inl () →
  name ∈ names →
  present (final (for_each names (extract_member dir z) d)) (dir // name)
    = true.
Proof.
  revert d. induction names as [|file names IH]; intros d Hv Hin.
  { by apply elem_of_nil in Hin. }
  revert Hv. rewrite extract_loop_cons. cbn zeta.
  destruct (value (extract_member dir z file d)) as [[]|] eqn:Hv1; [|done].
  intros Hv. apply elem_of_cons in Hin as [->|Hin]; [|by apply IH].
  eapply present_mono; [apply extract_loop_subseteq|].
  revert Hv1. rewrite extract_member_eq. cbn zeta.
  destruct (present d (dir // file)) eqn:Hp; [done|].
  destruct (absent_cases cwd d _ Hp) as [[e He]|(t & Ht & Hk)].
  { by rewrite He. }
  rewrite Ht. destruct (Zip.read z file) as [content|]; [|done].
  intros _. cbn [final]. unfold present.
  rewrite (namei_mono cwd d _ _ t (insert_new_subseteq d t _ Hk) Ht).
  apply bool_decide_eq_true. apply kind_None in Hk as [Hne _].
  rewrite kind_insert by done. by eexists.
Qed.

(** With members that can all be read, running the loop again, on the
    disk it left, changes nothing and ends the same way. *)
Lemma extract_loop_again dir z names d :
  (∀ name, name ∈ names → ∃ content, Zip.read z name = inl content) →
  for_each names (extract_member dir z)
    (final (for_each names (extract_member dir z) d))
  = for_each names (extract_member dir z) d.
Proof.
  revert d. induction names as [|file names IH]; intros d Hread; [done|].
  assert (∀ name, name ∈ names → ∃ content, Zip.read z name = inl content)
    as Hread' by (intros name Hin; apply Hread; by right).
  destruct (Hread file) as [content Hfile]; [by left|].
  rewrite (extract_loop_cons dir z file names d). cbn zeta.
  rewrite (extract_member_eq dir z file d). cbn zeta.
  destruct (present d (dir // file)) eqn:Hp; cbn [value final].
  - rewrite extract_loop_cons. cbn zeta.
    rewrite extract_member_eq. cbn zeta.
    rewrite (present_mono cwd d _ _ (extract_loop_subseteq _ _ _ _) Hp).
    cbn [value final]. by apply IH.
  - destruct (absent_cases cwd d _ Hp) as [[e He]|(t & Ht & Hk)].
    { rewrite He. cbn [value final]. rewrite extract_loop_cons. cbn zeta.
      rewrite extract_member_eq. cbn zeta. by rewrite Hp, He. }
    rewrite Ht, Hfile. cbn [value final].
    rewrite extract_loop_cons. cbn zeta. rewrite extract_member_eq. cbn zeta.
    assert (present (final (for_each names (extract_member dir z)
                              (<[t := File content]> d))) (dir // file) = true)
      as ->.
    { eapply present_mono; [apply extract_loop_subseteq|]. unfold present.
      rewrite (namei_mono cwd d _ _ t (insert_new_subseteq d t _ Hk) Ht).
      apply bool_decide_eq_true. apply kind_None in Hk as [Hne _].
      rewrite kind_insert by done. by eexists. }
    cbn [value final]. by apply IH.
Qed.

(** Once something is at the path of every member, the loop does
    nothing. *)
Lemma extract_loop_skips dir z names d :
  (∀ name, name ∈ names → present d (dir // name) = true) →
  for_each names (extract_member dir z) d = Result (inl ()) d [].
Proof.
  induction names as [|file names IH]; intros Hall; [done|].
  rewrite extract_loop_cons. cbn zeta. rewrite extract_member_eq. cbn zeta.
  rewrite Hall by left. cbn [value final]. apply IH.
  intros name Hin. apply Hall. by right.
Qed.

(** With members that can all be read, the loop ends with an error of
    the file system, if it does not return. *)
Lemma extract_loop_raises dir z names d x :
  (∀ name, name ∈ names → ∃ content, Zip.read z name = inl content) →
  value (for_each names (extract_member dir z) d) = inr x →
  ∃ file, file ∈ names
          ∧ (x = FileNotFoundError (dir // file)
             ∨ x = NotADirectoryError (dir // file)).
Proof.
  revert d. induction names as [|file names IH]; intros d Hread; [done|].
  destruct (Hread file) as [content Hfile]; [by left|].
  assert (∀ d', value (for_each names (extract_member dir z) d') = inr x →
            ∃ file', file' ∈ file :: names
                     ∧ (x = FileNotFoundError (dir // file')
                        ∨ x = NotADirectoryError (dir // file'))) as Hrest.
  { intros d' Hv. destruct (IH d') as (file' & Hin & Hx); [|done|].
    - intros name Hin. apply Hread. by right.
    - exists file'. split; [by right|done]. }
  rewrite extract_loop_cons. cbn zeta. rewrite extract_member_eq. cbn zeta.
  destruct (present d (dir // file)) eqn:Hp; cbn [value final];
    [apply Hrest|].
  destruct (namei d (dir // file)) as [e|t] eqn:Hn; cbn [value final].
  - intros [= <-]. exists file. split; [by left|].
    revert Hn. unfold Pathlib.namei.
    assert (∀ cur todo, walk_from d cur todo ≠ inl EEXIST) as Hwalk.
    { intros cur todo. revert cur.
      induction todo as [|c todo IHt]; intros cur; simpl; [done|].
      destruct (kind d cur) as [[]|]; [done|apply IHt|done]. }
    destruct e; [by left|by right|].
    destruct (dir // file) as [|c q]; [by destruct (kind d cwd) as [[]|]|].
    case_decide; intros Hw; by apply Hwalk in Hw.
  - rewrite Hfile. cbn [value final]. apply Hrest.
Qed.

(** *** One filing period *)

Lemma extract_archive_eq dir body d :
  extract_archive dir body d =
    match unzip body with
    | inl z => extract_all dir z d
    | inr x => Result (inr x) d []
    end.
Proof.
  unfold extract_archive. rewrite bind_run. unfold lift. run_simpl.
  destruct (unzip body); [apply result_eta|done].
Qed.

Lemma extract_archive_output dir body d :
  output (extract_archive dir body d) = [].
Proof.
  rewrite extract_archive_eq. destruct (unzip body); [|done].
  apply extract_loop_output.
Qed.

Lemma extract_archive_subseteq dir body d :
  d ⊆ final (extract_archive dir body d).
Proof.
  rewrite extract_archive_eq. destruct (unzip body); [|done].
  apply extract_loop_subseteq.
Qed.

Lemma extract_archive_tree_like dir body d :
  tree_like d → tree_like (final (extract_archive dir body d)).
Proof.
  intros Htree. rewrite extract_archive_eq. destruct (unzip body); [|done].
  by apply extract_loop_tree_like.
Qed.

Lemma extract_archive_changes dir body d x :
  final (extract_archive dir body d) !! x = d !! x
  ∨ (d !! x = None
     ∧ ∃ c, final (extract_archive dir body d) !! x = Some (File c)).
Proof.
  rewrite extract_archive_eq. destruct (unzip body); [|by left].
  apply extract_loop_changes.
Qed.

Lemma reported_final r : final (reported r) = final r.
Proof. unfold reported. by destruct (value r) as [|[]]. Qed.

Lemma try_report (body : run unit) d :
  try_except_BadZipFile body (λ e, print e;; print "got bad zip file") d
  = reported (body d).
Proof.
  unfold try_except_BadZipFile, reported.
  destruct (value (body d)) as [|[]]; try done.
Qed.

Lemma fetch_period_eq yr qtr d :
  fetch_period (yr, qtr) d =
    let e := ensure_dir (quarter_dir yr qtr) d in
    match value e with
    | inr x => Result (inr x) (final e) [banner yr qtr]
    | inl _ =>
        match http_get (filing_url yr qtr) with
        | inr x => Result (inr x) (final e) (asked yr qtr)
        | inl body =>
            let t := reported (extract_archive (quarter_dir yr qtr) body (final e)) in
            Result (value t) (final t) (asked yr qtr ++ output t)
        end
    end.
Proof.
  unfold fetch_period. cbn zeta. fold (filing_url yr qtr).
  rewrite bind_run. cbn [print_end emit value final output app].
  rewrite bind_run, ensure_dir_output.
  destruct (value (ensure_dir _ d)) as [[]|x]; run_simpl; [|done].
  rewrite bind_run. cbn [print emit value final output app].
  rewrite bind_run. cbn [requests_get value final output app].
  destruct (http_get _) as [body|x]; run_simpl; [|done].
  by rewrite try_report.
Qed.

Lemma fetch_single p d : fetch_filing_data [p] d = fetch_period p d.
Proof.
  unfold fetch_filing_data. rewrite for_each_cons, bind_run.
  destruct (fetch_period p d) as [[[]|e] d' out]; simpl; by rewrite ?app_nil_r.
Qed.


Lemma fetch_batch_cons p rest d :
  fetch_filing_data (p :: rest) d =
    let r1 := fetch_period p d in
    match value r1 with
    | inl _ =>
        let r2 := fetch_filing_data rest (final r1) in
        Result (value r2) (final r2) (output r1 ++ output r2)
    | inr x => Result (inr x) (final r1) (output r1)
    end.
Proof. unfold fetch_filing_data. by rewrite for_each_cons, bind_run. Qed.

Lemma quarter_dir_ne_nil yr qtr : quarter_dir yr qtr ≠ [].
Proof. by rewrite quarter_dir_parts. Qed.

Lemma fetch_period_subseteq p d : d ⊆ final (fetch_period p d).
Proof.
  destruct p as [yr qtr]. rewrite fetch_period_eq. cbn zeta.
  pose proof (ensure_dir_subseteq (quarter_dir yr qtr) d) as He.
  destruct (value (ensure_dir _ d)) as [[]|x]; [|done].
  destruct (http_get _) as [body|x]; [|done]. cbn [final].
  rewrite reported_final. etrans; [done|]. apply extract_archive_subseteq.
Qed.

Lemma fetch_period_tree_like p d :
  tree_like d → tree_like (final (fetch_period p d)).
Proof.
  intros Htree. destruct p as [yr qtr]. rewrite fetch_period_eq. cbn zeta.
  pose proof (ensure_dir_tree_like (quarter_dir yr qtr) d Htree) as He.
  destruct (value (ensure_dir _ d)) as [[]|x]; [|done].
  destruct (http_get _) as [body|x]; [|done]. cbn [final].
  rewrite reported_final. by apply extract_archive_tree_like.
Qed.

Lemma fetch_batch_subseteq l d : d ⊆ final (fetch_filing_data l d).
Proof.
  revert d. induction l as [|p l IH]; intros d; [done|].
  rewrite fetch_batch_cons. cbn zeta.
  pose proof (fetch_period_subseteq p d) as Hp.
  destruct (value (fetch_period p d)) as [[]|x]; [|done]. cbn [final].
  etrans; [done|apply IH].
Qed.

Lemma fetch_batch_tree_like l d :
  tree_like d → tree_like (final (fetch_filing_data l d)).
Proof.
  revert d. induction l as [|p l IH]; intros d Htree; [done|].
  rewrite fetch_batch_cons. cbn zeta.
  pose proof (fetch_period_tree_like p d Htree) as Hp.
  destruct (value (fetch_period p d)) as [[]|x]; [|done]. cbn [final].
  by apply IH.
Qed.

(** *** Running a period twice *)

Lemma readable_spec z name :
  readable z = true → name ∈ Zip.namelist z →
  ∃ content, Zip.read z name = inl content.
Proof.
  unfold readable. rewrite forallb_forall. intros Hall Hin%list_elem_of_In.
  specialize (Hall _ Hin). destruct (Zip.read z name); [by eexists|done].
Qed.

Lemma archive_of_Some yr qtr body z :
  http_get (filing_url yr qtr) = inl body → unzip body = inl z →
  archive_of http_get unzip yr qtr = Some z.
Proof. intros Hb Hz. unfold archive_of. by rewrite Hb, Hz. Qed.

Lemma extract_archive_again dir body d :
  (∀ z, unzip body = inl z → readable z = true) →
  extract_archive dir body (final (extract_archive dir body d))
  = extract_archive dir body d.
Proof.
  intros Hread. rewrite !extract_archive_eq.
  destruct (unzip body) as [z|x] eqn:Hz; [|done].
  apply extract_loop_again. intros name Hin. by apply readable_spec; [apply Hread|].
Qed.

(** With members that can all be read, the [try] ends in its report
    only for a body that is no archive. *)
Lemma extract_archive_bad_zip dir body d msg :
  (∀ z, unzip body = inl z → readable z = true) →
  value (extract_archive dir body d) = inr (BadZipFile msg) →
  unzip body = inr (BadZipFile msg).
Proof.
  intros Hread. rewrite extract_archive_eq.
  destruct (unzip body) as [z|x] eqn:Hz; [|by intros [= ->]].
  intros Hv. apply extract_loop_raises in Hv as (p & _ & [?|?]); [done..|].
  intros name Hin. by apply readable_spec; [apply Hread|].
Qed.

Lemma fetch_period_again yr qtr d :
  tree_like d →
  (∀ z, archive_of http_get unzip yr qtr = Some z → readable z = true) →
  fetch_period (yr, qtr) (final (fetch_period (yr, qtr) d))
  = fetch_period (yr, qtr) d.
Proof.
  intros Htree Hread. rewrite (fetch_period_eq yr qtr d). cbn zeta.
  pose proof (ensure_dir_again (quarter_dir yr qtr) d Htree
                (quarter_dir_plain yr qtr)) as Hagain.
  destruct (value (ensure_dir _ d)) as [[]|x] eqn:He.
  - destruct (http_get _) as [body|x] eqn:Hb; cbn [final].
    + rewrite reported_final, fetch_period_eq. cbn zeta.
      assert (present (final (extract_archive (quarter_dir yr qtr) body
                (final (ensure_dir (quarter_dir yr qtr) d))))
                (quarter_dir yr qtr) = true) as Hp.
      { eapply present_mono; [apply extract_archive_subseteq|].
        by apply ensure_dir_present. }
      rewrite ensure_dir_eq, Hp, Hb. cbn [value final].
      rewrite extract_archive_again; [by rewrite reported_final|].
      intros z Hz. apply Hread. by eapply archive_of_Some.
    + rewrite fetch_period_eq. cbn zeta. by rewrite Hagain, He, Hb.
  - cbn [final]. rewrite fetch_period_eq. cbn zeta. by rewrite Hagain, He.
Qed.

(** A period that returned returns again, without a change, on every
    disk that holds what it left. *)
Lemma fetch_period_done yr qtr d d' :
  (∀ z, archive_of http_get unzip yr qtr = Some z → readable z = true) →
  value (fetch_period (yr, qtr) d) = inl () →
  final (fetch_period (yr, qtr) d) ⊆ d' →
  fetch_period (yr, qtr) d'
    = Result (inl ()) d' (output (fetch_period (yr, qtr) d)).
Proof.
  intros Hread. rewrite (fetch_period_eq yr qtr d). cbn zeta.
  pose proof (ensure_dir_present (quarter_dir yr qtr) d) as Hdir.
  destruct (value (ensure_dir _ d)) as [[]|x]; [|done].
  destruct (http_get _) as [body|x] eqn:Hb; [|done]. cbn [value final output].
  rewrite reported_final. intros Hv Hsub.
  assert (∀ z, unzip body = inl z → readable z = true) as Hread'.
  { intros z Hz. apply Hread. by eapply archive_of_Some. }
  rewrite fetch_period_eq. cbn zeta.
  assert (present d' (quarter_dir yr qtr) = true) as Hp.
  { eapply present_mono; [|by apply Hdir].
    etrans; [apply extract_archive_subseteq|done]. }
  rewrite ensure_dir_eq, Hp, Hb. cbn [value final].
  revert Hv Hsub. unfold reported at 1 2.
  pose proof (extract_archive_bad_zip (quarter_dir yr qtr) body
                (final (ensure_dir (quarter_dir yr qtr) d))) as Hbad.
  rewrite !extract_archive_eq in *. unfold extract_all in *.
  destruct (unzip body) as [z|x] eqn:Hz.
  - destruct (value (for_each _ _ _)) as [[]|x] eqn:Hx.
    + intros _ Hsub. rewrite extract_loop_skips.
      * unfold reported. rewrite Hx. cbn [value final output].
        by rewrite extract_loop_output.
      * intros name Hin. eapply present_mono; [done|].
        by apply extract_loop_all_present.
    + intros Hv. exfalso. destruct x as [| | | | |m|]; try congruence.
      by specialize (Hbad m Hread' eq_refl).
  - cbn [value final output]. destruct x; try done.
Qed.

(** C1, as the code has it.  With an archive whose members can all be
    read, fetching a period a second time, with the same answers from
    the network and the decoder, gives the very same result on the disk
    the first run left: nothing is added, rewritten or duplicated.
    Whatever is on the disk before a fetch is there unchanged after it,
    whatever the archive holds; and a member at whose path something is
    already there is passed over without touching the disk or reading
    the member. *)
Theorem refetch_changes_nothing yr qtr d :
  let once := fetch_filing_data [(yr, qtr)] d in
  (tree_like d →
   (∀ z, archive_of http_get unzip yr qtr = Some z → readable z = true) →
   fetch_filing_data [(yr, qtr)] (final once) = once)
  ∧ (∀ p, is_Some (d !! p) → final once !! p = d !! p)
  ∧ (∀ zip_file file d',
       present d' (quarter_dir yr qtr // file) = true →
       extract_member (quarter_dir yr qtr) zip_file file d'
         = Result (inl ()) d' []).
Proof.
  cbn zeta. rewrite !fetch_single. split; [|split].
  - intros Htree Hread. by apply fetch_period_again.
  - intros p [x Hx]. rewrite Hx.
    eapply lookup_weaken; [done|apply fetch_period_subseteq].
  - intros z file d' Hp. rewrite extract_member_eq. cbn zeta. by rewrite Hp.
Qed.

(** *** What a period requests *)

Lemma requested_app out1 out2 :
  requested (out1 ++ out2) = requested out1 ++ requested out2.
Proof. apply omap_app. Qed.

Lemma reported_requested r :
  requested (output (reported r)) = requested (output r).
Proof.
  unfold reported. destruct (value r) as [|[]]; try done.
  cbn [output]. by rewrite requested_app, app_nil_r.
Qed.

Lemma requested_fetch_period yr qtr d :
  requested (output (fetch_period (yr, qtr) d)) =
    match value (ensure_dir (quarter_dir yr qtr) d) with
    | inl _ => [filing_url yr qtr]
    | inr _ => []
    end.
Proof.
  rewrite fetch_period_eq. cbn zeta.
  destruct (value (ensure_dir _ d)) as [[]|x]; [|done].
  destruct (http_get _) as [body|x]; [|done]. cbn [output].
  by rewrite requested_app, reported_requested, extract_archive_output.
Qed.

Lemma fetch_period_value_dir yr qtr d :
  value (fetch_period (yr, qtr) d) = inl () →
  value (ensure_dir (quarter_dir yr qtr) d) = inl ().
Proof.
  rewrite fetch_period_eq. cbn zeta.
  by destruct (value (ensure_dir _ d)) as [[]|].
Qed.

(** The requests of a batch are those of its periods, in order, up to
    the period that raised, if any. *)
Lemma requested_batch l d :
  requested (output (fetch_filing_data l d))
    `prefix_of` (λ p : period, filing_url p.1 p.2) <$> l
  ∧ (value (fetch_filing_data l d) = inl () →
     requested (output (fetch_filing_data l d))
       = (λ p : period, filing_url p.1 p.2) <$> l).
Proof.
  revert d. induction l as [|[yr qtr] l IH]; intros d; [done|].
  rewrite fetch_batch_cons. cbn zeta.
  pose proof (requested_fetch_period yr qtr d) as Hreq.
  destruct (value (fetch_period (yr, qtr) d)) as [[]|x] eqn:Hv;
    cbn [value final output].
  - rewrite (fetch_period_value_dir yr qtr d Hv) in Hreq.
    rewrite requested_app, Hreq.
    destruct (IH (final (fetch_period (yr, qtr) d))) as [Hpre Hall].
    split.
    + by apply prefix_cons.
    + intros Hok. by rewrite Hall.
  - split; [|done]. rewrite Hreq.
    destruct (value (ensure_dir _ d)); [by apply prefix_cons, prefix_nil|].
    apply prefix_nil.
Qed.

(** C8.  The URL of a period is the fixed base followed by
    [<y>q<q>_notes.zip] and depends on nothing but the period.  The
    fetch of a period requests nothing but this URL, whatever the disk,
    the network and the decoder are; once its directory step has gone
    through, it prints this URL and requests it, once; and every
    request of a batch is the URL of one of its periods, in their
    order, all of them when the batch returns. *)
Theorem filing_url_is_base_plus_name yr qtr d :
  let r := fetch_filing_data [(yr, qtr)] d in
  filing_url yr qtr =
    "https://www.sec.gov/files/dera/data/financial-statement-and-notes-data-sets/"
      +:+ pretty yr +:+ "q" +:+ pretty qtr +:+ "_notes.zip"
  ∧ requested (output r) `prefix_of` [filing_url yr qtr]
  ∧ (value (ensure_dir (quarter_dir yr qtr) d) = inl () →
     requested (output r) = [filing_url yr qtr]
     ∧ Stdout ("url = " +:+ filing_url yr qtr +:+ nl) ∈ output r)
  ∧ (∀ l d', value (fetch_filing_data l d') = inl () →
       requested (output (fetch_filing_data l d'))
         = (λ p : period, filing_url p.1 p.2) <$> l)
  ∧ (∀ l d' url, url ∈ requested (output (fetch_filing_data l d')) →
       ∃ y q, (y, q) ∈ l ∧ url = filing_url y q).
Proof.
  cbn zeta. rewrite fetch_single.
  split; [reflexivity|]. split; [|split; [|split]].
  - rewrite requested_fetch_period.
    destruct (value (ensure_dir _ d)); [done|apply prefix_nil].
  - intros Hok. split; [by rewrite requested_fetch_period, Hok|].
    rewrite fetch_period_eq. cbn zeta. rewrite Hok.
    destruct (http_get _) as [body|x]; cbn [output].
    + apply elem_of_app. left. apply elem_of_cons. right. by left.
    + apply elem_of_cons. right. by left.
  - intros l d'. apply requested_batch.
  - intros l d' url Hin.
    destruct (requested_batch l d') as [[k Hk] _].
    assert (url ∈ (λ p : period, filing_url p.1 p.2) <$> l) as Hl.
    { rewrite Hk. apply elem_of_app. by left. }
    apply list_elem_of_fmap in Hl as ([y q] & -> & Hp). by exists y, q.
Qed.

(** *** The directory of a period *)

(** A period that returned, or that sent its request, has its directory
    step behind it, and keeps what that step left on the disk. *)
Lemma fetch_period_dir_step yr qtr d :
  (value (fetch_period (yr, qtr) d) = inl ()
   ∨ HttpGet (filing_url yr qtr) ∈ output (fetch_period (yr, qtr) d)) →
  value (ensure_dir (quarter_dir yr qtr) d) = inl ()
  ∧ final (ensure_dir (quarter_dir yr qtr) d) ⊆ final (fetch_period (yr, qtr) d).
Proof.
  rewrite fetch_period_eq. cbn zeta.
  destruct (value (ensure_dir _ d)) as [[]|x]; cbn [value final output].
  - intros _. split; [done|].
    destruct (http_get _) as [body|x]; cbn [final]; [|done].
    rewrite reported_final. apply extract_archive_subseteq.
  - intros [?|Hin]; [done|]. by apply list_elem_of_singleton in Hin.
Qed.

(** C10, as the code has it.  The quarter directory is made before the
    request goes out.  Unless a regular file has the place of
    [<root>/<y>_<q>/source] beforehand, the path and all on the way to
    it are directories right after the directory step, so when the
    request was sent, and when the fetch returned, the directory is on
    the disk, whatever the response was and however many members were
    extracted. *)
Theorem quarter_dir_made_before_request yr qtr d :
  let r := fetch_filing_data [(yr, qtr)] d in
  let made := final (ensure_dir (quarter_dir yr qtr) d) in
  (∀ c, d !! (cwd ++ quarter_dir yr qtr) ≠ Some (File c)) →
  (value r = inl () ∨ HttpGet (filing_url yr qtr) ∈ output r) →
  final r !! (cwd ++ quarter_dir yr qtr) = Some Dir
  ∧ made !! (cwd ++ quarter_dir yr qtr) = Some Dir
  ∧ made ⊆ final r
  ∧ (∀ k, k `prefix_of` quarter_dir yr qtr → k ≠ [] →
          made !! (cwd ++ k) = Some Dir ∧ final r !! (cwd ++ k) = Some Dir).
Proof.
  cbn zeta. rewrite fetch_single.
  intros Hfree [Hok Hsub]%fetch_period_dir_step.
  assert (∀ k, k `prefix_of` quarter_dir yr qtr → k ≠ [] →
               final (ensure_dir (quarter_dir yr qtr) d) !! (cwd ++ k)
                 = Some Dir) as Hmade.
  { intros k Hk Hne. rewrite <-kind_lookup by (by intros [_ ?]%app_eq_nil).
    by apply ensure_dir_is_dir;
      [apply quarter_dir_plain|apply quarter_dir_ne_nil|..]. }
  pose proof (Hmade (quarter_dir yr qtr) (reflexivity _)
                (quarter_dir_ne_nil yr qtr)) as Hdir.
  split; [by eapply lookup_weaken|]. split; [done|]. split; [done|].
  intros k Hk Hne. split; [by apply Hmade|].
  eapply lookup_weaken; [by apply Hmade|done].
Qed.

(** *** A body that is no archive *)

(** C5, as the code has it.  When the body received for (2020,1) cannot
    be opened as an archive, no file is written (below
    [data/2020_1/source] or anywhere else); unless the directory step
    raised, the batch goes on with the next period, and the failure
    shows only as two printed lines, the decoder's message and
    [got bad zip file]; the run returns nothing and keeps no count.  In
    a tree with no regular file on the way to the directory, the
    directory step does not raise. *)
Theorem bad_archive_2020q1 rest body msg d :
  http_get
    "https://www.sec.gov/files/dera/data/financial-statement-and-notes-data-sets/2020q1_notes.zip"
    = inl body →
  unzip body = inr (BadZipFile msg) →
  let r := fetch_filing_data [(2020, 1)] d in
  let e := ensure_dir (quarter_dir 2020 1) d in
  (∀ q c, final r !! q = Some (File c) → d !! q = Some (File c))
  ∧ (∀ q, cwd ++ ["data"; "2020_1"; "source"] `prefix_of` q →
          q ≠ cwd ++ ["data"; "2020_1"; "source"] → final r !! q = d !! q)
  ∧ (value e = inl () →
     value r = inl ()
     ∧ output r =
         [Stdout "2020-Q1 ";
          Stdout ("url = https://www.sec.gov/files/dera/data/financial-statement-and-notes-data-sets/2020q1_notes.zip" +:+ nl);
          HttpGet "https://www.sec.gov/files/dera/data/financial-statement-and-notes-data-sets/2020q1_notes.zip";
          Stdout (msg +:+ nl);
          Stdout ("got bad zip file" +:+ nl)]
     ∧ fetch_filing_data ((2020, 1) :: rest) d =
         (let r2 := fetch_filing_data rest (final r) in
          Result (value r2) (final r2) (output r ++ output r2)))
  ∧ (tree_like d →
     (∀ k c, k `prefix_of` ["data"; "2020_1"; "source"] →
             d !! (cwd ++ k) ≠ Some (File c)) →
     value e = inl ()).
Proof.
  intros Hb Hz. cbn zeta. rewrite fetch_single, fetch_batch_cons. cbn zeta.
  rewrite (fetch_period_eq 2020 1 d). cbn zeta.
  change (filing_url 2020 1) with
    "https://www.sec.gov/files/dera/data/financial-statement-and-notes-data-sets/2020q1_notes.zip".
  rewrite Hb, extract_archive_eq, Hz. unfold reported. cbn [value final output].
  pose proof (ensure_dir_changes (quarter_dir 2020 1) d) as Hch.
  assert (∀ q, final (ensure_dir (quarter_dir 2020 1) d) !! q = d !! q
               ∨ (d !! q = None
                  ∧ final (ensure_dir (quarter_dir 2020 1) d) !! q = Some Dir
                  ∧ ∃ k, k `prefix_of` ["data"; "2020_1"; "source"]
                         ∧ q = cwd ++ k)) as Hch'.
  { intros q. apply Hch, quarter_dir_plain. }
  split; [|split; [|split]].
  - intros q c. destruct (value (ensure_dir _ d)) as [[]|x]; cbn [final];
      intros Hq; destruct (Hch' q) as [Heq|(_ & Hdir & _)]; congruence.
  - intros q Hpre Hne.
    assert (final (ensure_dir (quarter_dir 2020 1) d) !! q = d !! q) as Heq.
    { destruct (Hch' q) as [?|(_ & _ & k & Hk & ->)]; [done|].
      destruct Hne. f_equal. apply (anti_symm prefix); [done|].
      by apply prefix_app_inv in Hpre. }
    by destruct (value (ensure_dir _ d)) as [[]|x].
  - by intros ->.
  - intros Htree Hfree. apply ensure_dir_ok; [done|apply quarter_dir_plain|done].
Qed.

(** *** Members with plain names *)

Lemma plain_name_spec file :
  plain_name file = true ↔ is_absolute file = false ∧ ".." ∉ parts file.
Proof.
  unfold plain_name. rewrite andb_true_iff, negb_true_iff, bool_decide_eq_true.
  done.
Qed.

Lemma plain_archive_spec z name :
  plain_archive z = true → name ∈ Zip.namelist z → plain_name name = true.
Proof.
  unfold plain_archive. rewrite forallb_forall.
  intros Hall Hin%list_elem_of_In. by apply Hall.
Qed.

Lemma member_path dir file :
  plain_name file = true → dir // file = dir ++ parts file.
Proof. intros [Habs _]%plain_name_spec. unfold div. by rewrite Habs. Qed.

Lemma member_path_plain dir file :
  plain_path dir → dir ≠ [] → plain_name file = true →
  plain_path (dir // file).
Proof.
  intros Hdir Hne Hfile. rewrite member_path by done.
  apply plain_path_app; [done..|]. by apply plain_name_spec in Hfile as [_ ?].
Qed.


(** With plain names, what a member adds is at its path below the
    working directory. *)
Lemma extract_member_where dir z file d x :
  plain_path dir → dir ≠ [] → plain_name file = true →
  final (extract_member dir z file d) !! x = d !! x
  ∨ (d !! x = None ∧ x = cwd ++ dir ++ parts file
     ∧ present d (dir // file) = false
     ∧ match Zip.read z file with
       | inl content =>
           final (extract_member dir z file d) !! x = Some (File content)
       | inr _ => final (extract_member dir z file d) !! x = Some (File [])
       end).
Proof.
  intros Hdir Hne Hfile.
  destruct (extract_member_changes dir z file d x) as [?|(? & Hn & ? & ?)];
    [by left|right].
  split; [done|]. split; [|done].
  apply namei_plain in Hn as [-> _]; [|by apply member_path_plain].
  by rewrite member_path.
Qed.

Lemma extract_loop_where dir z names d x :
  plain_path dir → dir ≠ [] →
  (∀ name, name ∈ names → plain_name name = true) →
  final (for_each names (extract_member dir z) d) !! x = d !! x
  ∨ (d !! x = None
     ∧ ∃ name, name ∈ names ∧ x = cwd ++ dir ++ parts name
       ∧ (∃ d0, d ⊆ d0 ∧ present d0 (dir // name) = false ∧ d0 !! x = None)
       ∧ match Zip.read z name with
         | inl content =>
             final (for_each names (extract_member dir z) d) !! x
               = Some (File content)
         | inr _ =>
             final (for_each names (extract_member dir z) d) !! x
               = Some (File [])
         end).
Proof.
  intros Hdir Hne. revert d.
  induction names as [|file names IH]; intros d Hplain; [by left|].
  rewrite extract_loop_cons. cbn zeta.
  pose proof (extract_member_subseteq dir z file d) as Hsub.
  destruct (extract_member_where dir z file d x Hdir Hne)
    as [Heq|(Hnone & -> & Hp & Hc)]; [apply Hplain; by left|..].
  - destruct (value (extract_member dir z file d)); [|by left].
    destruct (IH (final (extract_member dir z file d)))
      as [?|(Hnone & name & Hin & -> & (d0 & Hd0 & Hp0 & Hx0) & Hc)].
    + intros name Hin. apply Hplain. by right.
    + left. congruence.
    + right. split; [congruence|]. exists name. split; [by right|].
      split; [done|]. split; [|done]. exists d0.
      split; [by etrans|done].
  - right. split; [done|]. exists file. split; [by left|]. split; [done|].
    split; [by exists d|].
    destruct (value (extract_member dir z file d)).
    + pose proof (extract_loop_subseteq dir z names
                    (final (extract_member dir z file d))) as Hsub'.
      destruct (Zip.read z file); by eapply lookup_weaken.
    + done.
Qed.



Section plain_period.

Variables yr qtr : Z.

Hypothesis plain_here :
  ∀ z, archive_of http_get unzip yr qtr = Some z → plain_archive z = true.

Lemma plain_members body z name :
  http_get (filing_url yr qtr) = inl body → unzip body = inl z →
  name ∈ Zip.namelist z → plain_name name = true.
Proof.
  intros Hb Hz. apply plain_archive_spec, plain_here. by apply archive_of_Some with body.
Qed.

(** What a period with plain member names changes lies on the way to
    its quarter directory, or below it. *)
Lemma fetch_period_changes d x :
  final (fetch_period (yr, qtr) d) !! x = d !! x
  ∨ (d !! x = None
     ∧ ∃ k, x = cwd ++ k
            ∧ (k `prefix_of` quarter_dir yr qtr
               ∨ quarter_dir yr qtr `prefix_of` k)).
Proof.
  rewrite fetch_period_eq. cbn zeta.
  pose proof (ensure_dir_subseteq (quarter_dir yr qtr) d) as Hsub.
  assert (final (ensure_dir (quarter_dir yr qtr) d) !! x = d !! x
          ∨ (d !! x = None
             ∧ ∃ k, x = cwd ++ k
                    ∧ (k `prefix_of` quarter_dir yr qtr
                       ∨ quarter_dir yr qtr `prefix_of` k))) as He.
  { destruct (ensure_dir_changes (quarter_dir yr qtr) d x
                (quarter_dir_plain yr qtr)) as [?|(? & _ & k & ? & ->)];
      [by left|right]. split; [done|]. exists k. split; [done|by left]. }
  destruct (value (ensure_dir _ d)) as [[]|e]; [|done].
  destruct (http_get _) as [body|e] eqn:Hb; [|done]. cbn [final].
  rewrite reported_final, extract_archive_eq.
  destruct (unzip body) as [z|e] eqn:Hz; [|done]. unfold extract_all.
  destruct (extract_loop_where (quarter_dir yr qtr) z (Zip.namelist z)
              (final (ensure_dir (quarter_dir yr qtr) d)) x)
    as [->|(Hnone & name & _ & -> & _)];
    [apply quarter_dir_plain|apply quarter_dir_ne_nil
    |intros name; by apply plain_members with body|done|].
  right. split.
  - destruct (d !! _) eqn:Hd; [|done].
    by rewrite (lookup_weaken _ _ _ _ Hd Hsub) in Hnone.
  - eexists. split; [done|]. right. by apply prefix_app_r.
Qed.

Lemma fetch_period_keeps_cwd d :
  final (fetch_period (yr, qtr) d) !! cwd = d !! cwd.
Proof.
  rewrite fetch_period_eq. cbn zeta.
  pose proof (ensure_dir_keeps_cwd (quarter_dir yr qtr) d
                (quarter_dir_plain yr qtr)) as He.
  destruct (value (ensure_dir _ d)) as [[]|e]; [|done].
  destruct (http_get _) as [body|e] eqn:Hb; [|done]. cbn [final].
  rewrite reported_final, extract_archive_eq.
  destruct (unzip body) as [z|e] eqn:Hz; [|done]. unfold extract_all.
  destruct (extract_loop_where (quarter_dir yr qtr) z (Zip.namelist z)
              (final (ensure_dir (quarter_dir yr qtr) d)) cwd)
    as [->|(_ & name & _ & Heq & _)];
    [apply quarter_dir_plain|apply quarter_dir_ne_nil
    |intros name; by apply plain_members with body|done|].
  rewrite <-(app_nil_r cwd) in Heq at 1. apply app_inv_head in Heq.
  symmetry in Heq. apply app_eq_nil in Heq as [Heq _].
  by apply quarter_dir_ne_nil in Heq.
Qed.



End plain_period.

(** *** Whole batches *)

Lemma all_archives_cons P p l :
  all_archives P http_get unzip (p :: l) →
  (∀ z, archive_of http_get unzip p.1 p.2 = Some z → P z = true)
  ∧ all_archives P http_get unzip l.
Proof.
  intros Hall. split.
  - intros z. destruct p as [yr qtr]. apply Hall. by left.
  - intros yr qtr z Hin. apply Hall. by right.
Qed.

(** X5.  Running a batch a second time, on the disk the first run left
    and with the same answers from the network and the decoder, gives
    the very same result: the same disk, the same return or exception
    and the same output.  This is for a disk that is a tree and for
    archives whose members can all be read; the periods of the batch
    may repeat. *)
Theorem refetch_batch_changes_nothing l d :
  tree_like d → all_archives readable http_get unzip l →
  fetch_filing_data l (final (fetch_filing_data l d)) = fetch_filing_data l d.
Proof.
  revert d. induction l as [|[yr qtr] l IH]; intros d Htree Hread; [done|].
  apply all_archives_cons in Hread as [Hhere Hrest].
  rewrite (fetch_batch_cons _ l d). cbn zeta.
  destruct (value (fetch_period (yr, qtr) d)) as [[]|x] eqn:Hv; cbn [final].
  - rewrite fetch_batch_cons. cbn zeta.
    rewrite (fetch_period_done yr qtr d
               (final (fetch_filing_data l (final (fetch_period (yr, qtr) d)))))
      by (done || apply fetch_batch_subseteq).
    cbn [value final output]. rewrite IH; [done| |done].
    by apply fetch_period_tree_like.
  - rewrite fetch_batch_cons. cbn zeta.
    by rewrite fetch_period_again, Hv.
Qed.

Lemma fetch_batch_changes l d x :
  all_archives plain_archive http_get unzip l →
  final (fetch_filing_data l d) !! x = d !! x
  ∨ (d !! x = None
     ∧ ∃ yr qtr k, (yr, qtr) ∈ l ∧ x = cwd ++ k
                   ∧ around (quarter_dir yr qtr) k).
Proof.
  revert d. induction l as [|[yr qtr] l IH]; intros d Hplain; [by left|].
  apply all_archives_cons in Hplain as [Hhere Hrest].
  rewrite fetch_batch_cons. cbn zeta.
  pose proof (fetch_period_subseteq (yr, qtr) d) as Hsub.
  assert (final (fetch_period (yr, qtr) d) !! x = d !! x
          ∨ (d !! x = None
             ∧ ∃ yr' qtr' k, (yr', qtr') ∈ (yr, qtr) :: l ∧ x = cwd ++ k
                             ∧ around (quarter_dir yr' qtr') k)) as Hstep.
  { destruct (fetch_period_changes yr qtr Hhere d x) as [?|(? & k & ? & ?)];
      [by left|right]. split; [done|]. exists yr, qtr, k.
    split; [by left|done]. }
  destruct (value (fetch_period (yr, qtr) d)) as [[]|e]; [|done].
  cbn [final].
  destruct (IH (final (fetch_period (yr, qtr) d)) Hrest)
    as [->|(Hnone & yr' & qtr' & k & Hin & -> & Hk)]; [done|].
  right. split.
  - destruct (d !! _) eqn:Hd; [|done].
    by rewrite (lookup_weaken _ _ _ _ Hd Hsub) in Hnone.
  - exists yr', qtr', k. split; [by right|done].
Qed.

Lemma fetch_batch_keeps_cwd l d :
  all_archives plain_archive http_get unzip l →
  final (fetch_filing_data l d) !! cwd = d !! cwd.
Proof.
  revert d. induction l as [|[yr qtr] l IH]; intros d Hplain; [done|].
  apply all_archives_cons in Hplain as [Hhere Hrest].
  rewrite fetch_batch_cons. cbn zeta.
  pose proof (fetch_period_keeps_cwd yr qtr Hhere d) as Hstep.
  destruct (value (fetch_period (yr, qtr) d)) as [[]|e]; [|done].
  cbn [final]. by rewrite IH.
Qed.

Lemma around_head_data yr qtr k :
  around (quarter_dir yr qtr) k → k ≠ [] → head k = Some "data".
Proof.
  rewrite quarter_dir_parts. intros [[rest Hk]|[rest ->]] Hne; [|done].
  destruct k as [|c k]; [done|]. simpl in Hk. by injection Hk as <- _.
Qed.

(** The quarter directories of two periods do not lie in each other. *)
Lemma periods_apart yr qtr yr' qtr' k :
  around (quarter_dir yr' qtr') k → quarter_dir yr qtr `prefix_of` k →
  (yr', qtr') = (yr, qtr).
Proof.
  intros Hk Hpre. apply quarter_dir_inj. destruct Hk as [Hk|Hk].
  - symmetry. apply prefix_length_eq; [by etrans|].
    by rewrite !quarter_dir_length.
  - destruct (prefix_weak_total _ _ _ Hk Hpre) as [H|H].
    + apply prefix_length_eq; [done|]. by rewrite !quarter_dir_length.
    + symmetry. apply prefix_length_eq; [done|].
      by rewrite !quarter_dir_length.
Qed.

(** X4.  A batch only adds to the disk.  Nothing that is there before
    is removed or changed.  When the members of the archives have plain
    names (not absolute, no part [..]), whatever is new lies in the
    working directory under [data], on the way to or below the quarter
    directory of a period of the batch, and the quarter directories of
    all other periods are left as they were. *)
Theorem fetch_batch_only_adds l d x :
  let r := fetch_filing_data l d in
  d ⊆ final r
  ∧ (is_Some (d !! x) → final r !! x = d !! x)
  ∧ (all_archives plain_archive http_get unzip l →
     (final r !! x ≠ d !! x →
      d !! x = None
      ∧ ∃ yr qtr k, (yr, qtr) ∈ l ∧ x = cwd ++ k ∧ head k = Some "data"
                    ∧ around (quarter_dir yr qtr) k)
     ∧ (∀ yr qtr, (yr, qtr) ∉ l → cwd ++ quarter_dir yr qtr `prefix_of` x →
                  final r !! x = d !! x)).
Proof.
  cbn zeta.
  pose proof (fetch_batch_subseteq l d) as Hsub.
  split; [done|]. split; [|intros Hplain; split].
  - intros [n Hn]. rewrite Hn. by eapply lookup_weaken.
  - intros Hne.
    destruct (fetch_batch_changes l d x Hplain)
      as [?|(Hnone & yr & qtr & k & Hin & -> & Hk)]; [done|].
    split; [done|]. exists yr, qtr, k. split; [done|]. split; [done|].
    split; [|done]. apply (around_head_data yr qtr); [done|].
    intros ->. destruct Hne. rewrite app_nil_r.
    by apply fetch_batch_keeps_cwd.
  - intros yr qtr Hout [k ->].
    destruct (fetch_batch_changes l d ((cwd ++ quarter_dir yr qtr) ++ k) Hplain)
      as [?|(_ & yr' & qtr' & k' & Hin & Heq & Hk)]; [done|].
    rewrite <-app_assoc in Heq. apply app_inv_head in Heq as <-.
    destruct Hout.
    by rewrite <-(periods_apart yr qtr yr' qtr' _ Hk
                    (prefix_app_r _ _ _ (reflexivity _))).
Qed.

(** *** What a period prints *)

Lemma fetch_period_output yr qtr d :
  (∀ z, archive_of http_get unzip yr qtr = Some z → readable z = true) →
  value (fetch_period (yr, qtr) d) = inl () →
  output (fetch_period (yr, qtr) d) =
    asked yr qtr ++
      match http_get (filing_url yr qtr) with
      | inl body => match unzip body with
                    | inr (BadZipFile msg) => bad_zip_report msg
                    | _ => []
                    end
      | inr _ => []
      end.
Proof.
  intros Hread. rewrite fetch_period_eq. cbn zeta.
  destruct (value (ensure_dir _ d)) as [[]|x]; [|done].
  destruct (http_get _) as [body|x] eqn:Hb; [|done]. cbn [value output].
  assert (∀ z, unzip body = inl z → readable z = true) as Hread'.
  { intros z Hz. apply Hread. by eapply archive_of_Some. }
  pose proof (extract_archive_output (quarter_dir yr qtr) body
                (final (ensure_dir (quarter_dir yr qtr) d))) as Hout.
  pose proof (extract_archive_bad_zip (quarter_dir yr qtr) body
                (final (ensure_dir (quarter_dir yr qtr) d))) as Hbad.
  unfold reported.
  destruct (value (extract_archive _ body _)) as [[]|x] eqn:Hv.
  - intros _. rewrite Hout. rewrite extract_archive_eq in Hv.
    by destruct (unzip body) as [z|[]].
  - destruct x as [?|?|?|?|?|msg|?]; try (intros ?; congruence).
    intros _. cbn [output].
    by rewrite Hout, (Hbad msg Hread' eq_refl).
Qed.

(** X9.  The output of a batch that returns is fixed by its periods and
    the answers of the network and the decoder, whatever the disk held,
    when the members of the archives can all be read: for every period
    in turn the banner, the URL line and the request, then the two
    lines of the report exactly when the response was no archive, and
    nothing about the members extracted or skipped. *)
Theorem fetch_batch_output l d :
  all_archives readable http_get unzip l →
  value (fetch_filing_data l d) = inl () →
  output (fetch_filing_data l d) =
    p ← l;
    asked p.1 p.2 ++
      match http_get (filing_url p.1 p.2) with
      | inl body => match unzip body with
                    | inr (BadZipFile msg) => bad_zip_report msg
                    | _ => []
                    end
      | inr _ => []
      end.
Proof.
  revert d. induction l as [|[yr qtr] l IH]; intros d Hread; [done|].
  apply all_archives_cons in Hread as [Hhere Hrest].
  rewrite fetch_batch_cons. cbn zeta.
  pose proof (fetch_period_output yr qtr d Hhere) as Hout.
  destruct (value (fetch_period (yr, qtr) d)) as [[]|x]; [|done].
  cbn [value output]. intros Hv. rewrite bind_cons.
  by rewrite (Hout eq_refl), (IH _ Hrest Hv).
Qed.

(** *** Members in folders *)

(** The loop returns when every member can be read and has a directory
    to lie in. *)
Lemma extract_loop_ok dir z names d :
  tree_like d → plain_path dir → dir ≠ [] →
  (∀ name, name ∈ names →
     plain_name name = true
     ∧ (∃ content, Zip.read z name = inl content)
     ∧ kind d (cwd ++ removelast (dir ++ parts name)) = Some Dir) →
  value (for_each names (extract_member dir z) d) = inl ().
Proof.
  intros Htree Hdir Hne. revert d Htree.
  induction names as [|file names IH]; intros d Htree Hall; [done|].
  destruct (Hall file) as (Hplain & [content Hfile] & Hfolder); [by left|].
  assert (∀ d', tree_like d' → d ⊆ d' →
            value (for_each names (extract_member dir z) d') = inl ())
    as Hrest.
  { intros d' Htree' Hsub. apply IH; [done|]. intros name Hin.
    destruct (Hall name) as (? & ? & ?); [by right|].
    split; [done|]. split; [done|]. by eapply kind_mono. }
  rewrite extract_loop_cons. cbn zeta.
  pose proof (extract_member_tree_like dir z file d Htree) as Htree'.
  pose proof (extract_member_subseteq dir z file d) as Hsub.
  revert Htree' Hsub. rewrite extract_member_eq. cbn zeta.
  destruct (present d (dir // file)) eqn:Hp; cbn [value final];
    [by apply Hrest|].
  assert (namei d (dir // file) = inr (cwd ++ (dir // file))) as ->.
  { apply namei_plain_ok; [by apply member_path_plain|apply Htree|].
    rewrite member_path by done. intros k Hk Hkne.
    destruct (decide (k = removelast (dir ++ parts file))) as [->|Hk'];
      [done|].
    apply (tree_like_ancestors cwd d (cwd ++ removelast (dir ++ parts file)));
      [done|by eexists| |by intros ?%app_inv_head].
    apply prefix_app. destruct Hk as [rest Hk].
    destruct rest as [|c rest _] using rev_ind.
    { by rewrite app_nil_r in Hk. }
    rewrite Hk, app_assoc, removelast_last. by apply prefix_app_r. }
  rewrite Hfile. cbn [value final]. by apply Hrest.
Qed.

(** The loop makes files only: a directory that is there after it was
    there before. *)
Lemma extract_loop_dirs dir z names d x :
  plain_path dir → dir ≠ [] →
  (∀ name, name ∈ names → plain_name name = true) →
  final (for_each names (extract_member dir z) d) !! x = Some Dir →
  d !! x = Some Dir.
Proof.
  intros Hdir Hne Hplain Hx.
  destruct (extract_loop_where dir z names d x Hdir Hne Hplain)
    as [<-|(_ & name & _ & _ & _ & Hc)]; [done|].
  destruct (Zip.read z name); congruence.
Qed.

(** X7.  When a fetch goes through.  On a disk that is a tree, with no
    regular file at the quarter directory or on the way to it, and an
    archive whose members have plain names, can all be read, and lie
    either directly in the quarter directory or in a folder that is
    already a directory on the disk, the fetch returns normally and
    prints the banner and the URL line only. *)
Theorem fetch_returns_for_flat_archive yr qtr body z d :
  tree_like d →
  (∀ k c, k `prefix_of` quarter_dir yr qtr → d !! (cwd ++ k) ≠ Some (File c)) →
  http_get (filing_url yr qtr) = inl body → unzip body = inl z →
  readable z = true → plain_archive z = true →
  (∀ name, name ∈ Zip.namelist z →
     (length (parts name) ≤ 1)%nat
     ∨ d !! (cwd ++ removelast (quarter_dir yr qtr ++ parts name)) = Some Dir) →
  let r := fetch_filing_data [(yr, qtr)] d in
  value r = inl () ∧ output r = asked yr qtr.
Proof.
  intros Htree Hfree Hb Hz Hread Hplain Hflat. cbn zeta.
  rewrite fetch_single, fetch_period_eq. cbn zeta.
  pose proof (ensure_dir_ok (quarter_dir yr qtr) d Htree
                (quarter_dir_plain yr qtr) Hfree) as Hok.
  rewrite Hok, Hb. cbn [value output].
  rewrite extract_archive_eq, Hz. unfold extract_all.
  assert (value (for_each (Zip.namelist z)
                   (extract_member (quarter_dir yr qtr) z)
                   (final (ensure_dir (quarter_dir yr qtr) d))) = inl ())
    as Hv.
  { apply extract_loop_ok;
      [by apply ensure_dir_tree_like|apply quarter_dir_plain
      |apply quarter_dir_ne_nil|].
    intros name Hin. split; [by apply (plain_archive_spec z)|].
    split; [by apply readable_spec|].
    assert (∀ k, k `prefix_of` quarter_dir yr qtr →
              kind (final (ensure_dir (quarter_dir yr qtr) d)) (cwd ++ k)
                = Some Dir) as Hdirs.
    { intros k Hk. apply ensure_dir_is_dir;
        [apply quarter_dir_plain|apply quarter_dir_ne_nil
        |intros c; by apply Hfree|done..]. }
    destruct (Hflat name Hin) as [Hlen|Hfolder].
    - apply Hdirs. destruct (parts name) as [|c [|c' rest]]; simpl in Hlen.
      + rewrite app_nil_r. apply removelast_prefix.
      + by rewrite removelast_last.
      + lia.
    - eapply kind_mono; [apply ensure_dir_subseteq|].
      rewrite kind_lookup; [done|]. intros [_ Hnil]%app_eq_nil.
      revert Hnil. rewrite quarter_dir_parts.
      by destruct (parts name) as [|? [|? ?]]. }
  unfold reported. rewrite Hv. split; [done|].
  by rewrite extract_loop_output, app_nil_r.
Qed.

(** X8.  The fetcher creates no folders below the quarter directory.
    When the archive (members with plain names that can all be read)
    has a member whose folder is not a directory on the disk after the
    directory step, the fetch raises [FileNotFoundError] or
    [NotADirectoryError] for the path of a member: the first for a
    folder that is missing, the second where an earlier member was
    written at the folder's name. *)
Theorem fetch_raises_for_member_in_missing_folder yr qtr body z d name :
  http_get (filing_url yr qtr) = inl body → unzip body = inl z →
  readable z = true → plain_archive z = true →
  name ∈ Zip.namelist z →
  let made := final (ensure_dir (quarter_dir yr qtr) d) in
  value (ensure_dir (quarter_dir yr qtr) d) = inl () →
  made !! (cwd ++ removelast (quarter_dir yr qtr ++ parts name)) ≠ Some Dir →
  ∃ file, file ∈ Zip.namelist z
    ∧ (value (fetch_filing_data [(yr, qtr)] d)
         = inr (FileNotFoundError (quarter_dir yr qtr // file))
       ∨ value (fetch_filing_data [(yr, qtr)] d)
           = inr (NotADirectoryError (quarter_dir yr qtr // file))).
Proof.
  intros Hb Hz Hread Hplain Hin made Hok Hfolder.
  rewrite fetch_single, fetch_period_eq. cbn zeta.
  rewrite Hok, Hb. cbn [value]. rewrite extract_archive_eq, Hz.
  unfold extract_all, reported. fold made.
  assert (∀ file, file ∈ Zip.namelist z → plain_name file = true) as Hnames
    by (intros file; by apply plain_archive_spec).
  destruct (value (for_each _ _ made)) as [[]|x] eqn:Hv.
  - destruct Hfolder.
    pose proof (extract_loop_all_present _ _ _ _ name Hv Hin) as Hp.
    unfold present in Hp.
    destruct (namei _ (quarter_dir yr qtr // name)) as [e|t] eqn:Hn; [done|].
    apply namei_plain in Hn as [_ Hdirs];
      [|apply member_path_plain;
        [apply quarter_dir_plain|apply quarter_dir_ne_nil|by apply Hnames]].
    rewrite member_path in Hdirs by (by apply Hnames).
    assert (removelast (quarter_dir yr qtr ++ parts name)
              ≠ quarter_dir yr qtr ++ parts name) as Hne.
    { apply removelast_ne. intros [Hnil _]%app_eq_nil.
      by apply (quarter_dir_ne_nil yr qtr). }
    specialize (Hdirs (removelast (quarter_dir yr qtr ++ parts name))).
    rewrite kind_lookup in Hdirs.
    + apply (extract_loop_dirs (quarter_dir yr qtr) z (Zip.namelist z));
        [apply quarter_dir_plain|apply quarter_dir_ne_nil|done|].
      apply Hdirs; [apply removelast_prefix|done].
    + intros [_ Hnil]%app_eq_nil. revert Hnil. rewrite quarter_dir_parts.
      by destruct (parts name) as [|? [|? ?]].
  - assert (∀ file, file ∈ Zip.namelist z →
              ∃ content, Zip.read z file = inl content) as Hall
      by (intros file Hfile; by apply readable_spec).
    destruct (extract_loop_raises _ _ _ _ _ Hall Hv)
      as (file & Hfile & [->| ->]); exists file; (split; [done|]);
      [left|right]; exact Hv.
Qed.

(** *** What is extracted *)

(** X6.  What a fetch extracts.  With an archive as the response whose
    members have plain names, every regular file that is new on the
    disk sits below the quarter directory at the path of a member and
    holds, byte for byte, the content the archive has for that member,
    or nothing where reading the member failed; and when the fetch
    returns and all members can be read, something is at the path of
    every member, which for a path that was free before (and is not the
    quarter directory itself) is such a file. *)
Theorem fetch_extracts_the_members yr qtr body z d :
  http_get (filing_url yr qtr) = inl body → unzip body = inl z →
  plain_archive z = true →
  let dir := quarter_dir yr qtr in
  let r := fetch_filing_data [(yr, qtr)] d in
  (∀ x c, d !! x = None → final r !! x = Some (File c) →
     ∃ name, name ∈ Zip.namelist z ∧ x = cwd ++ dir ++ parts name
             ∧ match Zip.read z name with
               | inl content => c = content
               | inr _ => c = []
               end)
  ∧ (value r = inl () → readable z = true →
     ∀ name, name ∈ Zip.namelist z →
       present (final r) (dir // name) = true
       ∧ (d !! (cwd ++ dir ++ parts name) = None → parts name ≠ [] →
          ∃ name' content,
            name' ∈ Zip.namelist z ∧ parts name' = parts name
            ∧ Zip.read z name' = inl content
            ∧ final r !! (cwd ++ dir ++ parts name) = Some (File content))).
Proof.
  intros Hb Hz Hplain. cbn zeta.
  rewrite fetch_single, fetch_period_eq. cbn zeta.
  assert (∀ file, file ∈ Zip.namelist z → plain_name file = true) as Hnames
    by (intros file; by apply plain_archive_spec).
  pose proof (ensure_dir_changes (quarter_dir yr qtr) d) as Hch.
  destruct (value (ensure_dir _ d)) as [[]|e] eqn:He; cbn [value final].
  - rewrite Hb. cbn [value final]. rewrite reported_final.
    rewrite extract_archive_eq, Hz. unfold extract_all.
    set (made := final (ensure_dir (quarter_dir yr qtr) d)) in *.
    set (loop := for_each (Zip.namelist z)
                   (extract_member (quarter_dir yr qtr) z) made).
    pose proof (extract_loop_where (quarter_dir yr qtr) z (Zip.namelist z)
                  made) as Hwhere. fold loop in Hwhere.
    pose proof (extract_loop_subseteq (quarter_dir yr qtr) z (Zip.namelist z)
                  made) as Hsub. fold loop in Hsub.
    split.
    + intros x c Hnone Hx.
      destruct (Hwhere x (quarter_dir_plain yr qtr) (quarter_dir_ne_nil yr qtr)
                  Hnames) as [Heq|(_ & name & Hin & -> & _ & Hc)].
      * rewrite Heq in Hx.
        destruct (Hch x (quarter_dir_plain yr qtr)) as [?|(_ & ? & _)];
          congruence.
      * exists name. split; [done|]. split; [done|].
        destruct (Zip.read z name); congruence.
    + intros Hv Hread name Hin.
      assert (value loop = inl ()) as Hloop.
      { revert Hv. unfold reported.
        destruct (value loop) as [[]|x] eqn:Hl; [done|].
        assert (∀ file, file ∈ Zip.namelist z →
                  ∃ content, Zip.read z file = inl content) as Hall
          by (intros file Hfile; by apply readable_spec).
        destruct (extract_loop_raises _ _ _ _ _ Hall Hl)
          as (? & _ & [->| ->]); cbn [value]; congruence. }
      pose proof (extract_loop_all_present _ _ _ _ name Hloop Hin) as Hp.
      split; [done|]. intros Hnone Hparts.
      unfold present in Hp. fold loop in Hp.
      destruct (namei (final loop) (quarter_dir yr qtr // name))
        as [e|t] eqn:Hn; [done|].
      apply namei_plain in Hn as [-> _];
        [|apply member_path_plain;
          [apply quarter_dir_plain|apply quarter_dir_ne_nil|by apply Hnames]].
      rewrite member_path in Hp by (by apply Hnames).
      apply bool_decide_eq_true in Hp as [n Hk].
      rewrite kind_lookup in Hk
        by (intros [_ [? _]%app_eq_nil]%app_eq_nil;
            by apply (quarter_dir_ne_nil yr qtr)).
      destruct (Hwhere (cwd ++ quarter_dir yr qtr ++ parts name)
                  (quarter_dir_plain yr qtr) (quarter_dir_ne_nil yr qtr)
                  Hnames) as [Heq|(_ & name' & Hin' & Hpath & _ & Hc)].
      * rewrite Heq in Hk.
        destruct (Hch (cwd ++ quarter_dir yr qtr ++ parts name)
                    (quarter_dir_plain yr qtr))
          as [?|(_ & _ & k & Hpre & Hpath)]; [congruence|].
        apply app_inv_head in Hpath. subst k.
        apply prefix_length in Hpre. rewrite length_app in Hpre.
        destruct (parts name); [done|simpl in Hpre; lia].
      * do 2 apply app_inv_head in Hpath.
        destruct (readable_spec z name' Hread Hin') as [content Hcontent].
        rewrite Hcontent in Hc. by exists name', content.
  - split; [|done]. intros x c Hnone Hx.
    destruct (Hch x (quarter_dir_plain yr qtr)) as [?|(_ & ? & _)];
      congruence.
Qed.

(** *** A period whose archive is bad *)



End FetcherFacts.

(** ** Batches and failing periods *)

Section Independence.

Import Pathlib PathlibFacts.

(** Two networks and decoders that answer alike for every period but
    the period ([yr], [qtr]). *)
Variable cwd : path.
Variables (http_get http_get' : string → bytes + exn).
Variables (unzip unzip' : bytes → Zip.ZipFile + exn).
Variables (yr qtr : Z).

Hypothesis same_elsewhere : ∀ yr' qtr',
  (yr', qtr') ≠ (yr, qtr) →
  http_get' (filing_url yr' qtr') = http_get (filing_url yr' qtr')
  ∧ ∀ body, http_get (filing_url yr' qtr') = inl body →
            unzip' body = unzip body.

Hypothesis plain_here' :
  ∀ z, archive_of http_get' unzip' yr qtr = Some z → plain_archive z = true.


Lemma not_below_around k :
  around (quarter_dir yr qtr) k ∧ ¬ quarter_dir yr qtr `prefix_of` k
  ∨ k = quarter_dir yr qtr →
  ¬ below (cwd ++ quarter_dir yr qtr) (cwd ++ k).
Proof.
  intros [[_ Hk]| ->] [Hpre Hne]; [|done].
  destruct Hk. by apply prefix_app_inv in Hpre.
Qed.



End Independence.


(** ** Facts about strings and walks *)

Lemma str_app_assoc (s1 s2 s3 : string) :
  (s1 +:+ s2) +:+ s3 = s1 +:+ (s2 +:+ s3).
Proof.
  induction s1 as [|c s1 IH]; [done|].
  change (String c ((s1 +:+ s2) +:+ s3) = String c (s1 +:+ (s2 +:+ s3))).
  by rewrite IH.
Qed.

Lemma str_app_nil_r (s : string) : s +:+ EmptyString = s.
Proof.
  induction s as [|c s IH]; [done|].
  change (String c (s +:+ EmptyString) = String c s). by rewrite IH.
Qed.

(** Induction on a directory tree, with the property known of every
    subdirectory. *)
Lemma dirtree_forall_ind (P : dirtree → Prop)
    (step : ∀ name files subdirs,
        Forall P subdirs → P (DirTree name files subdirs)) :
  ∀ t, P t.
Proof.
  fix IH 1. intros [name files subdirs]. apply step.
  induction subdirs as [|t subdirs IHsub]; constructor; [apply IH|apply IHsub].
Qed.

Module OsFacts.
Import Os.

Lemma path_join_app a b : ∃ sep, path_join a b = a +:+ sep +:+ b.
Proof.
  unfold path_join. destruct a as [|c a]; [by exists EmptyString|].
  destruct (ends_with_slash _); [by exists EmptyString|by exists "/"].
Qed.

(** Every directory a walk yields is named by the walk's top followed by
    the way down to it. *)
Lemma walk_tree_roots t :
  ∀ top root dirs files,
    (root, dirs, files) ∈ walk_tree top t → ∃ rel, root = top +:+ rel.
Proof.
  induction t as [name fs subdirs IH] using dirtree_forall_ind.
  intros top root dirs files. simpl.
  intros [Heq|Hin]%elem_of_cons.
  - simplify_eq. exists EmptyString. by rewrite str_app_nil_r.
  - apply list_elem_of_In, in_flat_map in Hin as (sub & Hsub & Hin).
    apply list_elem_of_In in Hsub, Hin.
    rewrite Forall_forall in IH.
    destruct (IH sub Hsub _ _ _ _ Hin) as [rel ->].
    destruct (path_join_app top (dir_name sub)) as [sep ->].
    exists (sep +:+ dir_name sub +:+ rel). by rewrite !str_app_assoc.
Qed.

Lemma walk_roots cwd top root dirs files :
  (root, dirs, files) ∈ walk cwd top → ∃ rel, root = top +:+ rel.
Proof.
  unfold walk. destruct (resolve cwd top) as [t|]; [|by intros ?%elem_of_nil].
  apply walk_tree_roots.
Qed.

End OsFacts.

(** ** Facts about the uploaders *)

Section UploaderFacts.

Variable cwd : dirtree.

(** The nested loops over a walk are one loop over the walked files. *)
Lemma walk_loops_flatten {B : Type} (top : string) (body : string → list B) :
  ('(root, dirs, files) ← Os.walk cwd top;
   file ← files;
   body (root +:+ "/" +:+ file))
  = walked_files cwd top ≫= body.
Proof.
  unfold walked_files. induction (Os.walk cwd top) as [|[[root dirs] files] w IH].
  - done.
  - change (((root, dirs, files) :: w) ≫= ?f) with (f (root, dirs, files) ++ (w ≫= f)).
    rewrite bind_app, IH. f_equal. clear IH.
    induction files as [|file files IH]; [done|].
    change ((file :: files) ≫= ?f) with (f file ++ (files ≫= f)).
    rewrite bind_app, IH. f_equal. simpl. by rewrite app_nil_r.
Qed.

Lemma walked_files_under top fp :
  fp ∈ walked_files cwd top → ∃ rest, fp = top +:+ rest.
Proof.
  unfold walked_files.
  intros ([[root dirs] files] & Hin & Hw)%list_elem_of_bind.
  apply list_elem_of_bind in Hin as (file & ->%list_elem_of_singleton & _).
  destruct (OsFacts.walk_roots _ _ _ _ _ Hw) as [rel ->].
  exists (rel +:+ "/" +:+ file). by rewrite !str_app_assoc.
Qed.

Lemma uploads_app out1 out2 : uploads (out1 ++ out2) = uploads out1 ++ uploads out2.
Proof. apply omap_app. Qed.

Lemma submissions_app out1 out2 :
  submissions (out1 ++ out2) = submissions out1 ++ submissions out2.
Proof. apply omap_app. Qed.

Lemma uploads_upload_file f b k c : uploads (upload_file_to_s3 f b k c) = [(f, b, k)].
Proof. unfold upload_file_to_s3. simpl. by destruct (upload_file c f b k). Qed.

Lemma submissions_upload_file f b k c : submissions (upload_file_to_s3 f b k c) = [].
Proof. unfold upload_file_to_s3. simpl. by destruct (upload_file c f b k). Qed.

Lemma upload_folder_flat folder bucket c :
  upload_folder_to_s3 cwd folder bucket c =
    fp ← walked_files cwd "./data";
    upload_file_to_s3 fp bucket (str_drop 2 fp) c ++ [print_uploading fp].
Proof.
  unfold upload_folder_to_s3.
  apply (walk_loops_flatten "./data"
           (λ fp, upload_file_to_s3 fp bucket (str_drop 2 fp) c
                    ++ [print_uploading fp])).
Qed.

Lemma parallel_upload_folder_flat folder bucket c :
  parallel_upload_folder_to_s3 cwd folder bucket c =
    [PoolOpen 10]
      ++ (fp ← walked_files cwd "./data";
          [print_uploading fp]
            ++ upload_file_to_s3 fp bucket (str_drop 2 fp) c
            ++ [PoolSubmit fp bucket (str_drop 2 fp)])
      ++ [PoolClose].
Proof.
  unfold parallel_upload_folder_to_s3. do 2 f_equal.
  apply (walk_loops_flatten "./data"
           (λ fp, [print_uploading fp]
                    ++ upload_file_to_s3 fp bucket (str_drop 2 fp) c
                    ++ [PoolSubmit fp bucket (str_drop 2 fp)])).
Qed.

Lemma uploads_bind (l : list string) (body : string → list event) args :
  (∀ fp, uploads (body fp) = [args fp]) → uploads (l ≫= body) = args <$> l.
Proof.
  intros Hbody. induction l as [|fp l IH]; [done|].
  change ((fp :: l) ≫= body) with (body fp ++ (l ≫= body)).
  by rewrite uploads_app, Hbody, IH.
Qed.

Lemma submissions_bind (l : list string) (body : string → list event) args :
  (∀ fp, submissions (body fp) = [args fp]) →
  submissions (l ≫= body) = args <$> l.
Proof.
  intros Hbody. induction l as [|fp l IH]; [done|].
  change ((fp :: l) ≫= body) with (body fp ++ (l ≫= body)).
  by rewrite submissions_app, Hbody, IH.
Qed.

Lemma uploads_sequential folder bucket c :
  uploads (upload_folder_to_s3 cwd folder bucket c)
    = upload_args bucket <$> walked_files cwd "./data".
Proof.
  rewrite upload_folder_flat. apply uploads_bind. intros fp.
  by rewrite uploads_app, uploads_upload_file.
Qed.

Lemma uploads_parallel folder bucket c :
  uploads (parallel_upload_folder_to_s3 cwd folder bucket c)
    = upload_args bucket <$> walked_files cwd "./data".
Proof.
  rewrite parallel_upload_folder_flat, !uploads_app.
  change (uploads [PoolOpen 10]) with (@nil (string * string * string)).
  change (uploads [PoolClose]) with (@nil (string * string * string)).
  rewrite app_nil_r. apply uploads_bind. intros fp.
  by rewrite !uploads_app, uploads_upload_file.
Qed.

Lemma submissions_parallel folder bucket c :
  submissions (parallel_upload_folder_to_s3 cwd folder bucket c)
    = upload_args bucket <$> walked_files cwd "./data".
Proof.
  rewrite parallel_upload_folder_flat, !submissions_app.
  change (submissions [PoolOpen 10]) with (@nil (string * string * string)).
  change (submissions [PoolClose]) with (@nil (string * string * string)).
  rewrite app_nil_r. apply submissions_bind. intros fp.
  by rewrite !submissions_app, submissions_upload_file.
Qed.

(** C6.  The key under which a walked file is uploaded is its path
    without the first two characters, and nothing else is changed: the
    path is [./] followed by the key.  The walk starts at [./data], so
    a path [./data<rest>] gets the key [data<rest>]; the part below the
    root, such as [/a/b/c.tsv], is kept character by character.  This
    holds for the sequential and for the concurrent uploader. *)
Theorem upload_key_is_path_less_two_chars folder bucket c :
  uploads (upload_folder_to_s3 cwd folder bucket c)
    = (λ fp, (fp, bucket, str_drop 2 fp)) <$> walked_files cwd "./data"
  ∧ uploads (parallel_upload_folder_to_s3 cwd folder bucket c)
      = (λ fp, (fp, bucket, str_drop 2 fp)) <$> walked_files cwd "./data"
  ∧ submissions (parallel_upload_folder_to_s3 cwd folder bucket c)
      = (λ fp, (fp, bucket, str_drop 2 fp)) <$> walked_files cwd "./data"
  ∧ (∀ fp, fp ∈ walked_files cwd "./data" →
       ∃ rest, fp = "./data" +:+ rest
               ∧ str_drop 2 fp = "data" +:+ rest
               ∧ fp = "./" +:+ str_drop 2 fp)
  ∧ str_drop 2 ("./data" +:+ "/a/b/c.tsv") = "data/a/b/c.tsv".
Proof.
  split; [apply uploads_sequential|]. split; [apply uploads_parallel|].
  split; [apply submissions_parallel|]. split; [|done].
  intros fp [rest ->]%walked_files_under. by exists rest.
Qed.

(** C9.  The concurrent uploader handles every walked file twice: its
    loop body prints the file, calls [upload_file_to_s3] itself, and then
    submits the same call, with the same arguments, to the pool of ten
    workers.  So the calls made by the driver and the tasks submitted
    are each one per walked file, in walk order, and together they are
    two per file. *)
Theorem parallel_upload_handles_each_file_twice folder bucket c :
  let out := parallel_upload_folder_to_s3 cwd folder bucket c in
  out = [PoolOpen 10]
          ++ (fp ← walked_files cwd "./data";
              [print_uploading fp]
                ++ upload_file_to_s3 fp bucket (str_drop 2 fp) c
                ++ [PoolSubmit fp bucket (str_drop 2 fp)])
          ++ [PoolClose]
  ∧ uploads out = upload_args bucket <$> walked_files cwd "./data"
  ∧ submissions out = upload_args bucket <$> walked_files cwd "./data"
  ∧ (length (uploads out) + length (submissions out)
     = 2 * length (walked_files cwd "./data"))%nat.
Proof.
  cbn zeta. split; [apply parallel_upload_folder_flat|].
  rewrite uploads_parallel, submissions_parallel.
  split; [done|]. split; [done|]. rewrite length_fmap. lia.
Qed.

End UploaderFacts.

(** ** The period enumeration, as a whole *)

(** C3.  For a start year below the current year, the enumerated periods
    are strictly increasing in (year, quarter) order and without
    repetition; they hold all four quarters of every year from the start
    year up to last year, and of the current year exactly the quarters up
    to the current one.  The notebook starts at 2014: on 2021-02-01 it
    lists the 29 periods from (2014,1) to (2020,4) and then (2021,1). *)
Theorem filing_periods_enumeration (Y : Z) (D : timestamp) :
  Y < year D →
  let ps := Periods.filing_periods_from Y D in
  StronglySorted Periods.period_lt ps
  ∧ NoDup ps
  ∧ (∀ y q, Y ≤ y ≤ year D - 1 → 1 ≤ q ≤ 4 → (y, q) ∈ ps)
  ∧ (∀ q, (year D, q) ∈ ps ↔ 1 ≤ q ≤ quarter D)
  ∧ (∀ y q, (y, q) ∈ ps ↔
        (Y ≤ y < year D ∧ 1 ≤ q ≤ 4) ∨ (y = year D ∧ 1 ≤ q ≤ quarter D))
  ∧ Periods.filing_periods (Timestamp 2021 2 1) =
      [(2014, 1); (2014, 2); (2014, 3); (2014, 4);
       (2015, 1); (2015, 2); (2015, 3); (2015, 4);
       (2016, 1); (2016, 2); (2016, 3); (2016, 4);
       (2017, 1); (2017, 2); (2017, 3); (2017, 4);
       (2018, 1); (2018, 2); (2018, 3); (2018, 4);
       (2019, 1); (2019, 2); (2019, 3); (2019, 4);
       (2020, 1); (2020, 2); (2020, 3); (2020, 4);
       (2021, 1)]
  ∧ length (Periods.filing_periods (Timestamp 2021 2 1)) = 29%nat.
Proof.
  intros HY. cbn zeta.
  pose proof (PeriodFacts.filing_periods_from_sorted Y D) as Hsorted.
  split; [done|]. split.
  { eapply StronglySorted_irrefl_NoDup; [|done].
    apply PeriodFacts.period_lt_irrefl. }
  split.
  { intros y q Hy Hq. apply PeriodFacts.elem_of_filing_periods_from. left. lia. }
  split.
  { intros q. rewrite PeriodFacts.elem_of_filing_periods_from. lia. }
  split; [|done].
  intros y q. apply PeriodFacts.elem_of_filing_periods_from.
Qed.

Lemma filing_periods_enumeration_witness :
  2014 < year (Timestamp 2021 2 1)
  ∧ StronglySorted Periods.period_lt
      (Periods.filing_periods_from 2014 (Timestamp 2021 2 1))
  ∧ NoDup (Periods.filing_periods_from 2014 (Timestamp 2021 2 1))
  ∧ length (Periods.filing_periods (Timestamp 2021 2 1)) = 29%nat.
Proof.
  assert (2014 < year (Timestamp 2021 2 1)) as HY by (simpl; lia).
  destruct (filing_periods_enumeration 2014 (Timestamp 2021 2 1) HY)
    as (Hsorted & Hnodup & _ & _ & _ & _ & Hlen).
  exact (conj HY (conj Hsorted (conj Hnodup Hlen))).
Defined.

(** ** The fetcher on sample inputs *)

Lemma fresh_tree_like : tree_like Sample.workdir Sample.fresh.
Proof.
  split; [reflexivity|]. intros t n Ht. unfold Sample.fresh in Ht.
  repeat (apply lookup_insert_Some in Ht as [[<- _]|[_ Ht]]; [reflexivity|]).
  by rewrite lookup_empty in Ht.
Qed.

Lemma disk_2019q3_tree_like : tree_like Sample.workdir Sample.disk_2019q3.
Proof.
  split; [reflexivity|]. intros t n Ht.
  unfold Sample.disk_2019q3, Sample.fresh in Ht.
  repeat (apply lookup_insert_Some in Ht as [[<- _]|[_ Ht]]; [reflexivity|]).
  by rewrite lookup_empty in Ht.
Qed.

Lemma disk_2020q2_tree_like : tree_like Sample.workdir Sample.disk_2020q2.
Proof.
  split; [reflexivity|]. intros t n Ht.
  unfold Sample.disk_2020q2, Sample.fresh in Ht.
  repeat (apply lookup_insert_Some in Ht as [[<- _]|[_ Ht]]; [reflexivity|]).
  by rewrite lookup_empty in Ht.
Qed.

Lemma fresh_no_files t c : Sample.fresh !! t ≠ Some (File c).
Proof.
  intros Ht. unfold Sample.fresh in Ht.
  repeat (apply lookup_insert_Some in Ht as [[_ [=]]|[_ Ht]]).
  by rewrite lookup_empty in Ht.
Qed.

(** The sample network and decoder answer every period but 2020 Q1 with
    the archive of three members, and 2020 Q1 with no archive. *)
Lemma sample_archive_of yr qtr z :
  archive_of Sample.http_get Sample.unzip yr qtr = Some z → z = Sample.archive.
Proof.
  unfold archive_of, Sample.http_get, Sample.unzip.
  case_decide; [done|]. rewrite decide_True by done. by intros [= <-].
Qed.

Lemma sample_archives_readable l :
  all_archives readable Sample.http_get Sample.unzip l.
Proof. by intros yr qtr z _ ->%sample_archive_of. Qed.

Lemma sample_archives_plain l :
  all_archives plain_archive Sample.http_get Sample.unzip l.
Proof. by intros yr qtr z _ ->%sample_archive_of. Qed.

(** The scenario of 2019 Q3: the archive has [sub.tsv], [tag.tsv] and
    [num.tsv], and [sub.tsv] is on the disk already.  Only the other two
    are written; [sub.tsv] keeps its old content. *)
Example fetch_2019q3_skips_sub_tsv :
  let r := fetch_filing_data Sample.workdir Sample.http_get Sample.unzip
             [(2019, 3)] Sample.disk_2019q3 in
  value r = inl ()
  ∧ final r !! ["home"; "ml4t"; "data"; "2019_3"; "source"; "sub.tsv"]
      = Some (File (Sample.text "old"))
  ∧ final r !! ["home"; "ml4t"; "data"; "2019_3"; "source"; "tag.tsv"]
      = Some (File (Sample.text "tag"))
  ∧ final r !! ["home"; "ml4t"; "data"; "2019_3"; "source"; "num.tsv"]
      = Some (File (Sample.text "num"))
  ∧ size (final r) = 8%nat.
Proof. vm_compute. done. Qed.

Lemma refetch_changes_nothing_witness :
  tree_like Sample.workdir Sample.disk_2019q3
  ∧ fetch_filing_data Sample.workdir Sample.http_get Sample.unzip [(2019, 3)]
      (final (fetch_filing_data Sample.workdir Sample.http_get Sample.unzip
                [(2019, 3)] Sample.disk_2019q3))
    = fetch_filing_data Sample.workdir Sample.http_get Sample.unzip
        [(2019, 3)] Sample.disk_2019q3.
Proof.
  assert (∀ z, archive_of Sample.http_get Sample.unzip 2019 3 = Some z →
               readable z = true) as Hread.
  { intros z Hz. vm_compute in Hz. injection Hz as <-. reflexivity. }
  destruct (refetch_changes_nothing Sample.workdir Sample.http_get Sample.unzip
              2019 3 Sample.disk_2019q3) as [Hagain _].
  exact (conj disk_2019q3_tree_like (Hagain disk_2019q3_tree_like Hread)).
Defined.

(** C1, as the claim has it, fails where a member of the archive cannot
    be read.  The first run leaves the member's file empty and ends in
    the report, before the members after it are reached; the second run
    passes over the empty file and writes the next member: the second
    run changes the files of the quarter directory, and the empty file
    is never filled. *)
Lemma refetch_after_bad_member_adds_files :
  value (fetch_filing_data Sample.workdir Sample.http_get Sample.unzip_corrupt
       [(2019, 3)] Sample.fresh) = inl ()
  ∧ final (fetch_filing_data Sample.workdir Sample.http_get Sample.unzip_corrupt
       [(2019, 3)] Sample.fresh)
      !! ["home"; "ml4t"; "data"; "2019_3"; "source"; "sub.tsv"]
    = Some (File [])
  ∧ final (fetch_filing_data Sample.workdir Sample.http_get Sample.unzip_corrupt
       [(2019, 3)] Sample.fresh)
      !! ["home"; "ml4t"; "data"; "2019_3"; "source"; "tag.tsv"]
    = None
  ∧ value (fetch_filing_data Sample.workdir Sample.http_get Sample.unzip_corrupt
       [(2019, 3)]
       (final (fetch_filing_data Sample.workdir Sample.http_get Sample.unzip_corrupt
       [(2019, 3)] Sample.fresh))) = inl ()
  ∧ final (fetch_filing_data Sample.workdir Sample.http_get Sample.unzip_corrupt
       [(2019, 3)]
       (final (fetch_filing_data Sample.workdir Sample.http_get Sample.unzip_corrupt
       [(2019, 3)] Sample.fresh)))
      !! ["home"; "ml4t"; "data"; "2019_3"; "source"; "sub.tsv"]
    = Some (File [])
  ∧ final (fetch_filing_data Sample.workdir Sample.http_get Sample.unzip_corrupt
       [(2019, 3)]
       (final (fetch_filing_data Sample.workdir Sample.http_get Sample.unzip_corrupt
       [(2019, 3)] Sample.fresh)))
      !! ["home"; "ml4t"; "data"; "2019_3"; "source"; "tag.tsv"]
    = Some (File (Sample.text "tag")).
Proof. vm_compute. done. Qed.



Lemma filing_url_is_base_plus_name_witness :
  value (ensure_dir Sample.workdir (quarter_dir 2020 1) Sample.fresh) = inl ()
  ∧ requested (output (fetch_filing_data Sample.workdir Sample.http_get Sample.unzip
       [(2020, 1)] Sample.fresh))
    = ["https://www.sec.gov/files/dera/data/financial-statement-and-notes-data-sets/2020q1_notes.zip"]
  ∧ Stdout ("url = " +:+ filing_url 2020 1 +:+ nl)
      ∈ output (fetch_filing_data Sample.workdir Sample.http_get Sample.unzip
       [(2020, 1)] Sample.fresh).
Proof.
  assert (value (ensure_dir Sample.workdir (quarter_dir 2020 1) Sample.fresh)
            = inl ()) as Hok by (vm_compute; reflexivity).
  destruct (filing_url_is_base_plus_name Sample.workdir Sample.http_get
              Sample.unzip 2020 1 Sample.fresh) as (_ & _ & Hreq & _).
  exact (conj Hok (Hreq Hok)).
Defined.

Lemma quarter_dir_made_before_request_witness :
  value (fetch_filing_data Sample.workdir Sample.http_get Sample.unzip
       [(2020, 1)] Sample.fresh) = inl ()
  ∧ final (fetch_filing_data Sample.workdir Sample.http_get Sample.unzip
       [(2020, 1)] Sample.fresh)
      !! ["home"; "ml4t"; "data"; "2020_1"; "source"] = Some Dir
  ∧ final (ensure_dir Sample.workdir (quarter_dir 2020 1) Sample.fresh)
      !! ["home"; "ml4t"; "data"; "2020_1"; "source"] = Some Dir.
Proof.
  assert (value (fetch_filing_data Sample.workdir Sample.http_get Sample.unzip
       [(2020, 1)] Sample.fresh) = inl ()) as Hv
    by (vm_compute; reflexivity).
  destruct (quarter_dir_made_before_request Sample.workdir Sample.http_get
              Sample.unzip 2020 1 Sample.fresh (fresh_no_files _)
              (or_introl Hv)) as (Hdir & Hmade & _).
  exact (conj Hv (conj Hdir Hmade)).
Defined.

(** C10, as the claim has it, fails where a regular file has the place
    of the quarter directory: the fetcher finds that the path exists,
    makes nothing, sends the request, reports the bad archive and
    returns; the path is still the regular file. *)
Lemma file_in_place_is_not_replaced :
  value (fetch_filing_data Sample.workdir Sample.http_get Sample.unzip_never
           [(2020, 1)] Sample.disk_file_in_place) = inl ()
  ∧ HttpGet (filing_url 2020 1)
      ∈ output (fetch_filing_data Sample.workdir Sample.http_get
                  Sample.unzip_never [(2020, 1)] Sample.disk_file_in_place)
  ∧ final (fetch_filing_data Sample.workdir Sample.http_get Sample.unzip_never
             [(2020, 1)] Sample.disk_file_in_place)
      !! ["home"; "ml4t"; "data"; "2020_1"; "source"]
    = Some (File (Sample.text "note"))
  ∧ Pathlib.is_dir Sample.workdir
      (final (fetch_filing_data Sample.workdir Sample.http_get
                Sample.unzip_never [(2020, 1)] Sample.disk_file_in_place))
      (quarter_dir 2020 1) = false.
Proof.
  split; [vm_compute; reflexivity|]. split; [|vm_compute; done].
  apply list_elem_of_In. vm_compute. auto.
Qed.

Lemma bad_archive_2020q1_witness :
  Sample.http_get "https://www.sec.gov/files/dera/data/financial-statement-and-notes-data-sets/2020q1_notes.zip"
    = inl Sample.page
  ∧ Sample.unzip Sample.page = inr (BadZipFile "File is not a zip file")
  ∧ value (fetch_filing_data Sample.workdir Sample.http_get Sample.unzip
       [(2020, 1)] Sample.fresh) = inl ()
  ∧ (∀ q c, final (fetch_filing_data Sample.workdir Sample.http_get Sample.unzip
       [(2020, 1)] Sample.fresh) !! q = Some (File c) →
            Sample.fresh !! q = Some (File c))
  ∧ (fetch_filing_data Sample.workdir Sample.http_get Sample.unzip
       [(2020, 1); (2020, 2)] Sample.fresh)
    = Result
        (value (fetch_filing_data Sample.workdir Sample.http_get Sample.unzip
       [(2020, 2)]
       (final (fetch_filing_data Sample.workdir Sample.http_get Sample.unzip
       [(2020, 1)] Sample.fresh))))
        (final (fetch_filing_data Sample.workdir Sample.http_get Sample.unzip
       [(2020, 2)]
       (final (fetch_filing_data Sample.workdir Sample.http_get Sample.unzip
       [(2020, 1)] Sample.fresh))))
        (output (fetch_filing_data Sample.workdir Sample.http_get Sample.unzip
       [(2020, 1)] Sample.fresh)
         ++ output (fetch_filing_data Sample.workdir Sample.http_get Sample.unzip
       [(2020, 2)]
       (final (fetch_filing_data Sample.workdir Sample.http_get Sample.unzip
       [(2020, 1)] Sample.fresh)))).
Proof.
  assert (Sample.http_get "https://www.sec.gov/files/dera/data/financial-statement-and-notes-data-sets/2020q1_notes.zip"
            = inl Sample.page) as Hb by reflexivity.
  assert (Sample.unzip Sample.page
            = inr (BadZipFile "File is not a zip file")) as Hz by reflexivity.
  assert (∀ k c, k `prefix_of` ["data"; "2020_1"; "source"] →
                 Sample.fresh !! (Sample.workdir ++ k) ≠ Some (File c)) as Hfree
    by (intros k c _; apply fresh_no_files).
  destruct (bad_archive_2020q1 Sample.workdir Sample.http_get Sample.unzip
              [(2020, 2)] _ _ Sample.fresh Hb Hz)
    as (Hfiles & _ & Hgo & Hok).
  destruct (Hgo (Hok fresh_tree_like Hfree)) as (Hv & _ & Hnext).
  exact (conj Hb (conj Hz (conj Hv (conj Hfiles Hnext)))).
Defined.

(** C5, as the claim has it, fails twice.  The run has no summary
    count: a fetch of (2020,1) whose response is no archive and one
    whose response is an archive without members return the same value
    and leave the same disk, so nothing computed from what the run
    returns or stores counts one failure for the first and none for the
    second.  And a body that opens as an archive but has a member that
    fails its check is reported as a bad archive after the member's
    file was made: a file is written below [2020_1/source]. *)
Lemma fetch_keeps_no_failure_count :
  (¬ ∃ count : (unit + exn) * disk → nat,
       count (value (fetch_filing_data Sample.workdir Sample.http_get
                       Sample.unzip_never [(2020, 1)] Sample.fresh),
              final (fetch_filing_data Sample.workdir Sample.http_get
                       Sample.unzip_never [(2020, 1)] Sample.fresh)) = 1%nat
       ∧ count (value (fetch_filing_data Sample.workdir Sample.http_get
                         Sample.unzip_empty [(2020, 1)] Sample.fresh),
                final (fetch_filing_data Sample.workdir Sample.http_get
                         Sample.unzip_empty [(2020, 1)] Sample.fresh)) = 0%nat)
  ∧ output (fetch_filing_data Sample.workdir Sample.http_get
              Sample.unzip_corrupt [(2020, 1)] Sample.fresh)
    = asked 2020 1 ++ bad_zip_report "Bad CRC-32 for file 'sub.tsv'"
  ∧ final (fetch_filing_data Sample.workdir Sample.http_get
             Sample.unzip_corrupt [(2020, 1)] Sample.fresh)
      !! ["home"; "ml4t"; "data"; "2020_1"; "source"; "sub.tsv"]
    = Some (File []).
Proof.
  split; [|vm_compute; done].
  intros (count & Hbad & Hgood).
  assert ((value (fetch_filing_data Sample.workdir Sample.http_get
                    Sample.unzip_never [(2020, 1)] Sample.fresh),
           final (fetch_filing_data Sample.workdir Sample.http_get
                    Sample.unzip_never [(2020, 1)] Sample.fresh))
          = (value (fetch_filing_data Sample.workdir Sample.http_get
                      Sample.unzip_empty [(2020, 1)] Sample.fresh),
             final (fetch_filing_data Sample.workdir Sample.http_get
                      Sample.unzip_empty [(2020, 1)] Sample.fresh))) as Hsame.
  { rewrite !fetch_single, !fetch_period_eq. cbn zeta.
    destruct (value (ensure_dir Sample.workdir (quarter_dir 2020 1)
                       Sample.fresh)) as [[]|x]; [|done].
    by destruct (Sample.http_get (filing_url 2020 1)). }
  rewrite Hsame, Hgood in Hbad. discriminate Hbad.
Qed.

Lemma fetch_batch_only_adds_witness :
  all_archives plain_archive Sample.http_get Sample.unzip
    [(2019, 4); (2020, 1)]
  ∧ Sample.fresh ⊆ final (fetch_filing_data Sample.workdir Sample.http_get Sample.unzip
       [(2019, 4); (2020, 1)] Sample.fresh)
  ∧ final (fetch_filing_data Sample.workdir Sample.http_get Sample.unzip
       [(2019, 4); (2020, 1)] Sample.fresh)
      !! ["home"; "ml4t"; "data"; "2020_2"; "source"]
    = Sample.fresh !! ["home"; "ml4t"; "data"; "2020_2"; "source"].
Proof.
  destruct (fetch_batch_only_adds Sample.workdir Sample.http_get Sample.unzip
              [(2019, 4); (2020, 1)] Sample.fresh
              ["home"; "ml4t"; "data"; "2020_2"; "source"])
    as (Hsub & _ & Hplain).
  destruct (Hplain (sample_archives_plain _)) as [_ Hother].
  refine (conj (sample_archives_plain _) (conj Hsub (Hother 2020 2 _ _))).
  - intros Hin. apply list_elem_of_In in Hin. vm_compute in Hin.
    destruct Hin as [[=]|[[=]|[]]].
  - exists []. reflexivity.
Defined.

Lemma refetch_batch_changes_nothing_witness :
  tree_like Sample.workdir Sample.fresh
  ∧ all_archives readable Sample.http_get Sample.unzip [(2019, 4); (2020, 1)]
  ∧ (fetch_filing_data Sample.workdir Sample.http_get Sample.unzip
       [(2019, 4); (2020, 1)]
       (final (fetch_filing_data Sample.workdir Sample.http_get Sample.unzip
       [(2019, 4); (2020, 1)] Sample.fresh)))
    = (fetch_filing_data Sample.workdir Sample.http_get Sample.unzip
       [(2019, 4); (2020, 1)] Sample.fresh).
Proof.
  exact (conj fresh_tree_like (conj (sample_archives_readable _)
           (refetch_batch_changes_nothing Sample.workdir Sample.http_get
              Sample.unzip [(2019, 4); (2020, 1)] Sample.fresh
              fresh_tree_like (sample_archives_readable _)))).
Defined.

Lemma fetch_extracts_the_members_witness :
  Sample.http_get (filing_url 2019 3) = inl Sample.zipped
  ∧ Sample.unzip Sample.zipped = inl Sample.archive
  ∧ plain_archive Sample.archive = true
  ∧ value (fetch_filing_data Sample.workdir Sample.http_get Sample.unzip
       [(2019, 3)] Sample.disk_2019q3) = inl ()
  ∧ Pathlib.present Sample.workdir
      (final (fetch_filing_data Sample.workdir Sample.http_get Sample.unzip
       [(2019, 3)] Sample.disk_2019q3))
      (quarter_dir 2019 3 // "tag.tsv") = true.
Proof.
  assert (Sample.http_get (filing_url 2019 3) = inl Sample.zipped) as Hb
    by (vm_compute; reflexivity).
  assert (Sample.unzip Sample.zipped = inl Sample.archive) as Hz
    by reflexivity.
  assert (plain_archive Sample.archive = true) as Hplain by reflexivity.
  assert (value (fetch_filing_data Sample.workdir Sample.http_get Sample.unzip
       [(2019, 3)] Sample.disk_2019q3) = inl ()) as Hv
    by (vm_compute; reflexivity).
  destruct (fetch_extracts_the_members Sample.workdir Sample.http_get
              Sample.unzip 2019 3 _ _ Sample.disk_2019q3 Hb Hz Hplain)
    as [_ Hall].
  destruct (Hall Hv eq_refl "tag.tsv") as [Hp _].
  { apply list_elem_of_In. vm_compute. auto. }
  exact (conj Hb (conj Hz (conj Hplain (conj Hv Hp)))).
Defined.

Lemma fetch_returns_for_flat_archive_witness :
  tree_like Sample.workdir Sample.fresh
  ∧ Sample.http_get (filing_url 2019 3) = inl Sample.zipped
  ∧ Sample.unzip Sample.zipped = inl Sample.archive
  ∧ readable Sample.archive = true
  ∧ plain_archive Sample.archive = true
  ∧ value (fetch_filing_data Sample.workdir Sample.http_get Sample.unzip
             [(2019, 3)] Sample.fresh) = inl ()
  ∧ output (fetch_filing_data Sample.workdir Sample.http_get Sample.unzip
              [(2019, 3)] Sample.fresh) = asked 2019 3.
Proof.
  assert (Sample.http_get (filing_url 2019 3) = inl Sample.zipped) as Hb
    by (vm_compute; reflexivity).
  assert (Sample.unzip Sample.zipped = inl Sample.archive) as Hz
    by reflexivity.
  assert (readable Sample.archive = true) as Hread by reflexivity.
  assert (plain_archive Sample.archive = true) as Hplain by reflexivity.
  assert (∀ name, name ∈ Zip.namelist Sample.archive →
            (length (Pathlib.parts name) ≤ 1)%nat
            ∨ Sample.fresh
                !! (Sample.workdir
                      ++ removelast (quarter_dir 2019 3 ++ Pathlib.parts name))
              = Some Dir) as Hflat.
  { intros name Hin. left. apply list_elem_of_In in Hin. vm_compute in Hin.
    destruct Hin as [<-|[<-|[<-|[]]]]; vm_compute; lia. }
  destruct (fetch_returns_for_flat_archive Sample.workdir Sample.http_get
              Sample.unzip 2019 3 _ _ Sample.fresh fresh_tree_like
              (λ k c _, fresh_no_files _ c) Hb Hz Hread Hplain Hflat)
    as [Hv Hout].
  exact (conj fresh_tree_like (conj Hb (conj Hz (conj Hread (conj Hplain
           (conj Hv Hout)))))).
Defined.

Lemma fetch_raises_for_member_in_missing_folder_witness :
  Sample.http_get (filing_url 2019 3) = inl Sample.zipped
  ∧ Sample.unzip_with_folder Sample.zipped = inl Sample.archive_with_folder
  ∧ value (ensure_dir Sample.workdir (quarter_dir 2019 3) Sample.fresh)
    = inl ()
  ∧ ∃ file, file ∈ Zip.namelist Sample.archive_with_folder
      ∧ (value (fetch_filing_data Sample.workdir Sample.http_get Sample.unzip_with_folder
       [(2019, 3)] Sample.fresh)
         = inr (FileNotFoundError (quarter_dir 2019 3 // file))
         ∨ value (fetch_filing_data Sample.workdir Sample.http_get Sample.unzip_with_folder
       [(2019, 3)] Sample.fresh)
           = inr (NotADirectoryError (quarter_dir 2019 3 // file))).
Proof.
  assert (Sample.http_get (filing_url 2019 3) = inl Sample.zipped) as Hb
    by (vm_compute; reflexivity).
  assert (Sample.unzip_with_folder Sample.zipped
            = inl Sample.archive_with_folder) as Hz by reflexivity.
  assert (value (ensure_dir Sample.workdir (quarter_dir 2019 3) Sample.fresh)
            = inl ()) as Hok by (vm_compute; reflexivity).
  assert ("notes/readme.htm" ∈ Zip.namelist Sample.archive_with_folder) as Hin
    by (apply list_elem_of_In; vm_compute; auto).
  refine (conj Hb (conj Hz (conj Hok
            (fetch_raises_for_member_in_missing_folder Sample.workdir
               Sample.http_get Sample.unzip_with_folder 2019 3 _ _
               Sample.fresh "notes/readme.htm" Hb Hz eq_refl eq_refl Hin
               Hok _)))).
  vm_compute. discriminate.
Defined.

Lemma fetch_batch_output_witness :
  all_archives readable Sample.http_get Sample.unzip [(2019, 4); (2020, 1)]
  ∧ value (fetch_filing_data Sample.workdir Sample.http_get Sample.unzip
       [(2019, 4); (2020, 1)] Sample.fresh) = inl ()
  ∧ output (fetch_filing_data Sample.workdir Sample.http_get Sample.unzip
       [(2019, 4); (2020, 1)] Sample.fresh)
    = asked 2019 4
        ++ asked 2020 1 ++ bad_zip_report "File is not a zip file".
Proof.
  assert (value (fetch_filing_data Sample.workdir Sample.http_get Sample.unzip
       [(2019, 4); (2020, 1)] Sample.fresh) = inl ()) as Hv
    by (vm_compute; reflexivity).
  exact (conj (sample_archives_readable _) (conj Hv
           (fetch_batch_output Sample.workdir Sample.http_get Sample.unzip
              [(2019, 4); (2020, 1)] Sample.fresh
              (sample_archives_readable _) Hv))).
Defined.

(** ** The uploaders on sample inputs *)

(** C4 does not hold of the code.  Asked to upload [./other], both
    uploaders walk [./data] instead: the file below [./other] is never
    uploaded and the files below [./data] are.  The concurrent uploader,
    besides, uploads each of them itself and submits it once more. *)
Lemma upload_walks_data_whatever_the_folder :
  let seq := upload_folder_to_s3 Sample.cwd "./other" "fundamentals-data"
               Sample.client in
  let par := parallel_upload_folder_to_s3 Sample.cwd "./other"
               "fundamentals-data" Sample.client in
  walked_files Sample.cwd "./other" = ["./other/x.txt"]
  ∧ uploads seq =
      [("./data/2015_1/source/ren.tsv", "fundamentals-data", "data/2015_1/source/ren.tsv");
       ("./data/2015_1/source/pre.tsv", "fundamentals-data", "data/2015_1/source/pre.tsv");
       ("./data/a/b/c.tsv", "fundamentals-data", "data/a/b/c.tsv")]
  ∧ uploads par = uploads seq
  ∧ submissions par = uploads seq
  ∧ seq = upload_folder_to_s3 Sample.cwd "./data" "fundamentals-data" Sample.client.
Proof. vm_compute. done. Qed.

(** ** More on the period enumeration *)

Lemma length_range (lo hi : Z) : length (range lo hi) = Z.to_nat (hi - lo).
Proof. unfold range. apply length_seqZ. Qed.

Lemma length_bind_const {A B : Type} (f : A → list B) (l : list A) (n : nat) :
  (∀ x, length (f x) = n) → length (l ≫= f) = (length l * n)%nat.
Proof.
  intros Hf. induction l as [|x l IH]; [done|].
  change ((x :: l) ≫= f) with (f x ++ (l ≫= f)).
  rewrite length_app, Hf, IH. simpl. lia.
Qed.

Lemma quarter_bounds (D : timestamp) :
  1 ≤ month D ≤ 12 → 1 ≤ quarter D ≤ 4.
Proof.
  intros Hm. unfold quarter.
  assert (0 ≤ (month D - 1) / 3 ≤ 3); [|lia].
  split; [apply Z.div_pos; lia|].
  apply Z.lt_succ_r, Z.div_lt_upper_bound; lia.
Qed.

Lemma last_range (lo hi : Z) : lo < hi → last (range lo hi) = Some (hi - 1).
Proof.
  intros Hlt. unfold range.
  replace (hi - lo) with (Z.of_nat (S (Z.to_nat (hi - lo - 1)))) by lia.
  rewrite seqZ_S, last_snoc. f_equal. lia.
Qed.

Lemma filing_periods_from_length (Y : Z) (D : timestamp) :
  Y ≤ year D → 1 ≤ month D ≤ 12 →
  Z.of_nat (length (Periods.filing_periods_from Y D))
    = 4 * (year D - Y) + quarter D.
Proof.
  intros HY Hm. pose proof (quarter_bounds D Hm) as Hq.
  unfold Periods.filing_periods_from, Periods.past_years_from.
  rewrite length_app, length_fmap, length_range.
  rewrite (length_bind_const _ _ 4), length_range by done. lia.
Qed.

Lemma filing_periods_from_last (Y : Z) (D : timestamp) :
  1 ≤ month D ≤ 12 →
  last (Periods.filing_periods_from Y D) = Some (year D, quarter D).
Proof.
  intros Hm. pose proof (quarter_bounds D Hm) as Hq.
  unfold Periods.filing_periods_from, Periods.past_years_from.
  rewrite last_app, fmap_last, last_range by lia. simpl.
  do 2 f_equal. lia.
Qed.

(** X1.  From the start year on there are four periods for every past
    year and one for every quarter of the current year so far; the list
    begins with the first quarter of the start year (of the current year,
    when there is no past year) and ends with the current quarter. *)
Theorem filing_periods_count_and_ends (Y : Z) (D : timestamp) :
  Y ≤ year D → 1 ≤ month D ≤ 12 →
  let ps := Periods.filing_periods_from Y D in
  Z.of_nat (length ps) = 4 * (year D - Y) + quarter D
  ∧ head ps = Some (Y, 1)
  ∧ last ps = Some (year D, quarter D).
Proof.
  intros HY Hm. cbn zeta. pose proof (quarter_bounds D Hm) as Hq.
  split; [by apply filing_periods_from_length|].
  split; [|by apply filing_periods_from_last].
  unfold Periods.filing_periods_from, Periods.past_years_from.
  destruct (decide (Y = year D)) as [->|Hne].
  - replace (range (year D) (year D)) with (@nil Z)
      by (unfold range; by rewrite seqZ_nil by lia).
    replace (range 1 (quarter D + 1)) with (1 :: range 2 (quarter D + 1)); [done|].
    unfold range. rewrite (seqZ_cons 1) by lia. do 2 f_equal; lia.
  - replace (range Y (year D)) with (Y :: range (Y + 1) (year D)); [done|].
    unfold range. rewrite (seqZ_cons Y) by lia. do 2 f_equal; lia.
Qed.

Lemma filing_periods_count_and_ends_witness :
  2014 ≤ year (Timestamp 2021 2 1)
  ∧ Z.of_nat (length (Periods.filing_periods_from 2014 (Timestamp 2021 2 1)))
      = 4 * (2021 - 2014) + 1
  ∧ last (Periods.filing_periods_from 2014 (Timestamp 2021 2 1)) = Some (2021, 1).
Proof.
  assert (2014 ≤ year (Timestamp 2021 2 1)) as HY by (simpl; lia).
  assert (1 ≤ month (Timestamp 2021 2 1) ≤ 12) as Hm by (simpl; lia).
  destruct (filing_periods_count_and_ends 2014 (Timestamp 2021 2 1) HY Hm)
    as (Hlen & _ & Hlast).
  exact (conj HY (conj Hlen Hlast)).
Defined.

Lemma last_items_suffix {A : Type} (n : nat) (l : list A) :
  last_items n l `suffix_of` l.
Proof. apply suffix_drop. Qed.

Lemma last_items_length {A : Type} (n : nat) (l : list A) :
  length (last_items n l) = (n `min` length l)%nat.
Proof. unfold last_items. rewrite length_drop. lia. Qed.

Lemma last_items_last {A : Type} (n : nat) (l : list A) :
  (0 < n)%nat → last (last_items n l) = last l.
Proof.
  intros Hn. unfold last_items.
  destruct l as [|x l _] using rev_ind; [done|].
  rewrite length_app. simpl.
  rewrite drop_app_le by lia. by rewrite !last_snoc.
Qed.

Lemma StronglySorted_suffix {A : Type} (R : relation A) (l1 l2 : list A) :
  l1 `suffix_of` l2 → StronglySorted R l2 → StronglySorted R l1.
Proof. intros [k ->]. apply StronglySorted_app_1_r. Qed.

(** The enumeration by position: the period at place [i], counted
    from 0, is quarter [i mod 4 + 1] of the year [i / 4] after the start. *)
Lemma past_periods_by_position (Y : Z) (k : nat) :
  (y ← seqZ Y (Z.of_nat k); q ← range 1 5; [(y, q)])
  = (λ i, (Y + i / 4, i `mod` 4 + 1)) <$> seqZ 0 (4 * Z.of_nat k).
Proof.
  induction k as [|k IH]; [done|].
  rewrite seqZ_S, bind_app, IH.
  replace (4 * Z.of_nat (S k)) with (4 * Z.of_nat k + 4) by lia.
  rewrite seqZ_app, fmap_app by lia. f_equal.
  replace (seqZ (0 + 4 * Z.of_nat k) 4)
    with (Z.add (4 * Z.of_nat k) <$> seqZ 0 4)
    by (rewrite fmap_add_seqZ; f_equal; lia).
  change (seqZ 0 4) with [0; 1; 2; 3]. change (range 1 5) with [1; 2; 3; 4].
  cbn [mbind list_bind fmap list_fmap app].
  repeat f_equal; Z.div_mod_to_equations; lia.
Qed.

Lemma filing_periods_by_position (Y : Z) (D : timestamp) :
  Y ≤ year D → 1 ≤ month D ≤ 12 →
  Periods.filing_periods_from Y D
  = (λ i, (Y + i / 4, i `mod` 4 + 1))
      <$> seqZ 0 (4 * (year D - Y) + quarter D).
Proof.
  intros HY Hm. pose proof (quarter_bounds D Hm) as Hq.
  unfold Periods.filing_periods_from, Periods.past_years_from, range.
  replace (year D - Y) with (Z.of_nat (Z.to_nat (year D - Y))) at 1 by lia.
  rewrite past_periods_by_position, seqZ_app by lia. rewrite Z2Nat.id by lia.
  rewrite fmap_app. f_equal. replace (quarter D + 1 - 1) with (quarter D) by lia.
  replace (seqZ 1 (quarter D)) with (Z.add 1 <$> seqZ 0 (quarter D))
    by (by rewrite fmap_add_seqZ).
  replace (seqZ (0 + 4 * (year D - Y)) (quarter D))
    with (Z.add (4 * (year D - Y)) <$> seqZ 0 (quarter D))
    by (rewrite fmap_add_seqZ; f_equal; lia).
  rewrite <-!list_fmap_compose. apply Forall_fmap_ext, Forall_seqZ.
  intros j Hj. simpl. f_equal; Z.div_mod_to_equations; lia.
Qed.

Lemma drop_seqZ (m n : Z) (k : nat) :
  Z.of_nat k ≤ n → drop k (seqZ m n) = seqZ (m + Z.of_nat k) (n - Z.of_nat k).
Proof.
  intros Hk. replace n with (Z.of_nat k + (n - Z.of_nat k)) at 1 by lia.
  rewrite seqZ_app by lia. apply drop_app_length'.
  rewrite length_seqZ. lia.
Qed.

(** X2.  The batch that the notebook fetches, [filing_periods[-7:]], is
    the tail of the enumeration: seven periods (all of them while there
    are fewer), in increasing order, the last one the current quarter.
    They are the periods of the enumeration that lie fewer than seven
    quarters before the end of the current quarter. *)
Theorem recent_periods_are_the_tail (D : timestamp) :
  2014 ≤ year D → 1 ≤ month D ≤ 12 →
  recent_periods D `suffix_of` Periods.filing_periods D
  ∧ Z.of_nat (length (recent_periods D)) = 7 `min` (4 * (year D - 2014) + quarter D)
  ∧ last (recent_periods D) = Some (year D, quarter D)
  ∧ StronglySorted Periods.period_lt (recent_periods D)
  ∧ (∀ y q, (y, q) ∈ recent_periods D ↔
       (y, q) ∈ Periods.filing_periods D
       ∧ 4 * (year D - y) + (quarter D - q) < 7).
Proof.
  intros HY Hm. unfold recent_periods, Periods.filing_periods.
  pose proof (filing_periods_from_length Periods.start_year D HY Hm) as Hlen.
  pose proof (filing_periods_from_last Periods.start_year D Hm) as Hlast.
  pose proof (last_items_suffix 7 (Periods.filing_periods_from Periods.start_year D))
    as Hsuf.
  split; [done|]. split; [|split; [|split]].
  - rewrite last_items_length. unfold Periods.start_year in *. lia.
  - rewrite last_items_last by lia. done.
  - eapply StronglySorted_suffix; [done|].
    apply PeriodFacts.filing_periods_from_sorted.
  - intros y q. rewrite PeriodFacts.elem_of_filing_periods_from.
    pose proof (quarter_bounds D Hm) as Hq.
    unfold last_items. revert Hlen.
    rewrite (filing_periods_by_position Periods.start_year D HY Hm).
    unfold Periods.start_year in *. intros Hlen.
    rewrite <-fmap_drop, drop_seqZ by lia.
    rewrite list_elem_of_fmap. setoid_rewrite elem_of_seqZ.
    set (n := length _) in *. split.
    + intros (i & [= -> ->] & Hi). Z.div_mod_to_equations. lia.
    + intros [Hin Hlate]. exists (4 * (y - 2014) + q - 1).
      split; [f_equal; Z.div_mod_to_equations; lia|lia].
Qed.

Lemma recent_periods_are_the_tail_witness :
  2014 ≤ year (Timestamp 2021 2 1)
  ∧ recent_periods (Timestamp 2021 2 1) =
      [(2019, 3); (2019, 4); (2020, 1); (2020, 2); (2020, 3); (2020, 4); (2021, 1)]
  ∧ last (recent_periods (Timestamp 2021 2 1)) = Some (2021, 1).
Proof.
  assert (2014 ≤ year (Timestamp 2021 2 1)) as HY by (simpl; lia).
  assert (1 ≤ month (Timestamp 2021 2 1) ≤ 12) as Hm by (simpl; lia).
  destruct (recent_periods_are_the_tail (Timestamp 2021 2 1) HY Hm)
    as (_ & _ & Hlast & _).
  exact (conj HY (conj eq_refl Hlast)).
Defined.

(** ** More on the archive fetcher *)

(** X3.  A period is told by its URL and by its quarter directory: two
    periods share a URL only if they are the same period, and the
    quarter directory of one lies at or below that of the other only if
    they are the same period. *)
Theorem periods_do_not_collide (yr qtr yr' qtr' : Z) :
  (filing_url yr qtr = filing_url yr' qtr' ↔ (yr, qtr) = (yr', qtr'))
  ∧ (quarter_dir yr qtr `prefix_of` quarter_dir yr' qtr'
     ↔ (yr, qtr) = (yr', qtr')).
Proof.
  split; split.
  - apply filing_url_inj.
  - by intros [= -> ->].
  - intros Hpre. apply quarter_dir_inj, prefix_length_eq; [done|].
    by rewrite !quarter_dir_length.
  - by intros [= -> ->].
Qed.

(** ** More on the walk and the uploaders *)

Lemma str_app_inj_l (s a b : string) : s +:+ a = s +:+ b → a = b.
Proof. induction s as [|c s IH]; [done|]. intros [=]. auto. Qed.

Lemma str_snoc_inj (x : ascii) (a b : string) :
  a +:+ String x EmptyString = b +:+ String x EmptyString → a = b.
Proof.
  revert b. induction a as [|c a IH]; intros [|c' b] Heq; [done|..].
  - injection Heq as _ Heq. by destruct b.
  - injection Heq as _ Heq. by destruct a.
  - injection Heq as -> Heq. f_equal. by apply IH.
Qed.

Lemma no_slash_str_all s : no_slash s = true → str_all (λ c, c ≠ "/"%char) s.
Proof.
  induction s as [|c s IH]; [done|]. simpl.
  intros [Hc Hs]%andb_true_iff. split; [|by apply IH].
  apply negb_true_iff in Hc. by apply Ascii.eqb_neq.
Qed.

Lemma entry_name_spec s :
  entry_name s = true → s ≠ EmptyString ∧ str_all (λ c, c ≠ "/"%char) s.
Proof.
  destruct s as [|c s]; [done|]. intros Hs. split; [done|].
  by apply no_slash_str_all.
Qed.

Lemma no_slash_inside a b :
  ¬ str_all (λ c, c ≠ "/"%char) (a +:+ String "/" b).
Proof.
  induction a as [|c a IH]; [by intros [? _]|]. intros [_ Hs]. by apply IH.
Qed.

Lemma ends_with_slash_app a b :
  b ≠ EmptyString → Os.ends_with_slash (a +:+ b) = Os.ends_with_slash b.
Proof.
  intros Hb. induction a as [|c a IH]; [done|].
  change (String c a +:+ b) with (String c (a +:+ b)).
  cbn [Os.ends_with_slash]. rewrite IH.
  destruct (a +:+ b) eqn:Hab; [|done].
  destruct a; [by destruct b|done].
Qed.

Lemma entry_name_no_end_slash s :
  entry_name s = true → Os.ends_with_slash s = false.
Proof.
  intros [_ Hs]%entry_name_spec. induction s as [|c s IH]; [done|].
  destruct Hs as [Hc Hs]. cbn [Os.ends_with_slash].
  destruct s; [by apply Ascii.eqb_neq|by apply IH].
Qed.

Lemma path_join_entry top name :
  top ≠ EmptyString → Os.ends_with_slash top = false →
  entry_name name = true →
  Os.path_join top name = top +:+ "/" +:+ name
  ∧ Os.path_join top name ≠ EmptyString
  ∧ Os.ends_with_slash (Os.path_join top name) = false.
Proof.
  intros Htop Hend Hname. unfold Os.path_join.
  destruct top as [|c top]; [done|]. rewrite Hend. split; [done|].
  split; [done|]. rewrite ends_with_slash_app by done.
  change ("/" +:+ name) with (String "/" name). cbn [Os.ends_with_slash].
  destruct name as [|c' name]; [done|]. by apply entry_name_no_end_slash.
Qed.

Lemma well_formed_spec name files subdirs :
  well_formed (DirTree name files subdirs) = true →
  NoDup files ∧ NoDup (dir_name <$> subdirs)
  ∧ (∀ file, file ∈ files → entry_name file = true)
  ∧ (∀ sub, sub ∈ subdirs →
       entry_name (dir_name sub) = true ∧ well_formed sub = true).
Proof.
  cbn [well_formed]. rewrite !andb_true_iff, !forallb_forall.
  intros [[[[Hf%bool_decide_eq_true Hd%bool_decide_eq_true] Hfn] Hdn] Hsub].
  split; [done|]. split; [done|]. split.
  - intros file Hin. by apply Hfn, list_elem_of_In.
  - intros sub Hin%list_elem_of_In. split; [by apply Hdn|by apply Hsub].
Qed.

Lemma bind_flat_map {A B C : Type} (g : A → list B) (f : B → list C) l :
  flat_map g l ≫= f = l ≫= (λ x, g x ≫= f).
Proof.
  induction l as [|x l IH]; [done|].
  cbn [flat_map]. by rewrite bind_app, bind_cons, IH.
Qed.

Lemma bind_singleton_fmap {A B : Type} (f : A → B) (l : list A) :
  (x ← l; [f x]) = f <$> l.
Proof. induction l as [|x l IH]; [done|]. by rewrite bind_cons, IH. Qed.

Lemma tree_files_cons top name files subdirs :
  tree_files top (DirTree name files subdirs)
  = ((λ file, top +:+ "/" +:+ file) <$> files)
      ++ (sub ← subdirs; tree_files (Os.path_join top (dir_name sub)) sub).
Proof.
  unfold tree_files at 1. cbn [Os.walk_tree].
  rewrite bind_cons, bind_flat_map. f_equal; by try apply bind_singleton_fmap.
Qed.

Lemma bind_ext_in {A B : Type} (f g : A → list B) (l : list A) :
  (∀ x, x ∈ l → f x = g x) → l ≫= f = l ≫= g.
Proof.
  induction l as [|x l IH]; [done|]. intros Hfg.
  rewrite !bind_cons, Hfg by left. f_equal. apply IH.
  intros y Hy. apply Hfg. by right.
Qed.

Lemma fmap_bind_list {A B C : Type} (f : B → C) (g : A → list B) (l : list A) :
  f <$> (l ≫= g) = l ≫= (λ x, f <$> g x).
Proof.
  induction l as [|x l IH]; [done|]. by rewrite !bind_cons, fmap_app, IH.
Qed.


(** In a well-formed tree the path of a file is [top] followed by the
    names on the way down, each after a slash. *)
Lemma tree_files_rel t :
  ∀ top, top ≠ EmptyString → Os.ends_with_slash top = false →
         well_formed t = true →
         tree_files top t = (λ rest, top +:+ rest) <$> rel_files t.
Proof.
  induction t as [name files subdirs IH] using dirtree_forall_ind.
  intros top Htop Hend (_ & _ & _ & Hsubs)%well_formed_spec.
  rewrite tree_files_cons. cbn [rel_files].
  rewrite fmap_app, <-list_fmap_compose. f_equal.
  rewrite fmap_bind_list. apply bind_ext_in. intros sub Hin.
  destruct (Hsubs sub Hin) as [Hname Hwf].
  destruct (path_join_entry top (dir_name sub) Htop Hend Hname)
    as (Hjoin & Hne & Hend').
  rewrite Forall_forall in IH. rewrite (IH sub Hin _ Hne Hend' Hwf), Hjoin.
  rewrite <-list_fmap_compose. apply list_fmap_ext. intros _ rest _. simpl.
  by rewrite !str_app_assoc.
Qed.

Lemma rel_files_slash t rest :
  rest ∈ rel_files t → ∃ rest', rest = String "/" rest'.
Proof.
  destruct t as [name files subdirs]. cbn [rel_files].
  intros [Hin|Hin]%elem_of_app.
  - apply list_elem_of_fmap in Hin as (file & -> & _). by eexists.
  - apply list_elem_of_bind in Hin as (sub & Hin & _).
    apply list_elem_of_fmap in Hin as (r & -> & _). by eexists.
Qed.

Lemma same_name_same_entry (subdirs : list dirtree) sub1 sub2 :
  NoDup (dir_name <$> subdirs) → sub1 ∈ subdirs → sub2 ∈ subdirs →
  dir_name sub1 = dir_name sub2 → sub1 = sub2.
Proof.
  induction subdirs as [|sub subdirs IH]; [by intros _ ?%elem_of_nil|].
  rewrite fmap_cons, NoDup_cons. intros [Hnew Hnd].
  intros [->|H1]%elem_of_cons [->|H2]%elem_of_cons Heq; [done|..|by apply IH].
  - destruct Hnew. rewrite Heq. by apply list_elem_of_fmap_2.
  - destruct Hnew. rewrite <-Heq. by apply list_elem_of_fmap_2.
Qed.

(** In a well-formed tree no two files have the same path. *)
Lemma rel_files_NoDup t : well_formed t = true → NoDup (rel_files t).
Proof.
  induction t as [name files subdirs IH] using dirtree_forall_ind.
  intros (Hfiles & Hnames & Hfn & Hsubs)%well_formed_spec.
  rewrite Forall_forall in IH. cbn [rel_files]. apply NoDup_app.
  split; [|split].
  - apply NoDup_fmap_2_strong; [|done]. by intros f1 f2 _ _ [=].
  - intros path (file & -> & Hfile)%list_elem_of_fmap
      (sub & Hin & Hsub)%list_elem_of_bind.
    apply list_elem_of_fmap in Hin as (rest & Heq & Hrest).
    destruct (rel_files_slash _ _ Hrest) as [rest' ->].
    destruct (entry_name_spec _ (Hfn _ Hfile)) as [_ Hno].
    apply str_app_inj_l in Heq. rewrite Heq in Hno.
    by apply no_slash_inside in Hno.
  - apply NoDup_bind.
    + intros sub1 sub2 path Hin1 Hin2
        (r1 & -> & Hr1)%list_elem_of_fmap (r2 & Heq & Hr2)%list_elem_of_fmap.
      destruct (rel_files_slash _ _ Hr1) as [r1' ->].
      destruct (rel_files_slash _ _ Hr2) as [r2' ->].
      injection Heq as Heq.
      destruct (Hsubs _ Hin1) as [[_ Hn1]%entry_name_spec _].
      destruct (Hsubs _ Hin2) as [[_ Hn2]%entry_name_spec _].
      apply sep_inj in Heq as [Heq _]; [|done..].
      by apply (same_name_same_entry subdirs).
    + intros sub Hin. destruct (Hsubs _ Hin) as [_ Hwf].
      apply NoDup_fmap_2_strong; [|by apply IH].
      intros r1 r2 _ _ Heq. by do 2 apply str_app_inj_l in Heq.
    + by apply NoDup_fmap_1 in Hnames.
Qed.

Section UploaderMore.

Variable cwd : dirtree.

Lemma resolve_data : Os.resolve cwd "./data" = Os.subdir cwd "data".
Proof. done. Qed.

Lemma walked_files_data :
  walked_files cwd "./data"
  = from_option (tree_files "./data") [] (Os.resolve cwd "./data").
Proof.
  unfold walked_files, Os.walk. by destruct (Os.resolve cwd "./data").
Qed.


Lemma printed_app out1 out2 : printed (out1 ++ out2) = printed out1 ++ printed out2.
Proof. apply omap_app. Qed.

Lemma printed_bind {A : Type} (l : list A) (body : A → list event) :
  printed (l ≫= body) = l ≫= (λ x, printed (body x)).
Proof.
  induction l as [|x l IH]; [done|].
  by rewrite !bind_cons, printed_app, IH.
Qed.

Lemma printed_upload_file f b k c :
  printed (upload_file_to_s3 f b k c)
  = if upload_file c f b k then [] else [upload_error_line f].
Proof.
  unfold upload_file_to_s3. cbn [printed omap list_omap].
  destruct (upload_file c f b k); [done|]. cbn.
  unfold upload_error_line. by rewrite str_app_assoc.
Qed.

Lemma printed_sequential folder bucket c :
  printed (upload_folder_to_s3 cwd folder bucket c)
  = fp ← walked_files cwd "./data";
    (if upload_file c fp bucket (str_drop 2 fp) then []
     else [upload_error_line fp])
      ++ [("uploading file: " +:+ " " +:+ fp) +:+ nl].
Proof.
  rewrite upload_folder_flat, printed_bind. apply bind_ext_in. intros fp _.
  by rewrite printed_app, printed_upload_file.
Qed.

Lemma upload_error_line_inj f1 f2 :
  upload_error_line f1 = upload_error_line f2 → f1 = f2.
Proof.
  unfold upload_error_line, nl. intros Heq%str_snoc_inj.
  by apply str_app_inj_l in Heq.
Qed.

(** X11.  A failed upload is reported, never raised, and does not stop
    the walk.  The sequential uploader attempts every walked file
    whatever the client answers; it prints one line for every file and
    one more for every file the client refused; and the error line of a
    file is printed exactly when the client refused that file. *)
Theorem failed_uploads_are_reported_and_passed_over folder bucket c :
  let out := upload_folder_to_s3 cwd folder bucket c in
  let files := walked_files cwd "./data" in
  uploads out = upload_args bucket <$> files
  ∧ length (printed out)
      = (length files + length (refused c bucket files))%nat
  ∧ (∀ fp, upload_error_line fp ∈ printed out ↔ fp ∈ refused c bucket files).
Proof.
  cbn zeta. split; [apply uploads_sequential|].
  rewrite printed_sequential. unfold refused. split.
  - induction (walked_files cwd "./data") as [|fp l IH]; [done|].
    rewrite bind_cons, !length_app, IH, filter_cons.
    destruct (upload_file c fp bucket (str_drop 2 fp)) eqn:Hup.
    + rewrite decide_False by done. simpl. lia.
    + rewrite decide_True by done. simpl. lia.
  - intros fp. rewrite list_elem_of_bind, list_elem_of_filter. split.
    + intros (fp' & Hin & Hfp').
      destruct (upload_file c fp' bucket (str_drop 2 fp')) eqn:Hup.
      * apply list_elem_of_singleton in Hin. discriminate Hin.
      * apply elem_of_app in Hin as [Hin|Hin];
          apply list_elem_of_singleton in Hin; [|discriminate Hin].
        by apply upload_error_line_inj in Hin as ->.
    + intros [Hup Hin]. exists fp. split; [|done]. rewrite Hup.
      apply elem_of_app. left. by apply list_elem_of_singleton.
Qed.

(** X12.  No two files collide in the bucket.  When [./data] names a
    well-formed tree, the walked file paths are pairwise different, and
    so are the keys under which they are uploaded, by either uploader. *)
Theorem uploaded_keys_are_distinct folder bucket c t :
  Os.resolve cwd "./data" = Some t → well_formed t = true →
  NoDup (walked_files cwd "./data")
  ∧ NoDup ((λ a, a.2) <$> uploads (upload_folder_to_s3 cwd folder bucket c))
  ∧ NoDup ((λ a, a.2)
             <$> uploads (parallel_upload_folder_to_s3 cwd folder bucket c))
  ∧ NoDup ((λ a, a.2)
             <$> submissions (parallel_upload_folder_to_s3 cwd folder bucket c)).
Proof.
  intros Ht Hwf.
  assert (NoDup (walked_files cwd "./data")) as Hnd.
  { rewrite walked_files_data, Ht. cbn [from_option].
    rewrite tree_files_rel by done.
    apply NoDup_fmap_2_strong; [|by apply rel_files_NoDup].
    intros r1 r2 _ _ Heq. by apply str_app_inj_l in Heq. }
  assert (NoDup ((λ a : string * string * string, a.2)
                   <$> (upload_args bucket <$> walked_files cwd "./data")))
    as Hkeys.
  { rewrite <-list_fmap_compose. apply NoDup_fmap_2_strong; [|done].
    intros fp1 fp2 [r1 ->]%walked_files_under [r2 ->]%walked_files_under Heq.
    change ("data" +:+ r1 = "data" +:+ r2) in Heq.
    by apply str_app_inj_l in Heq as ->. }
  rewrite uploads_sequential, uploads_parallel, submissions_parallel.
  done.
Qed.

(** *** The listing cell *)

Variable islink : string → bool.

(** Where nothing at or below [top] is a symbolic link, the walk goes
    everywhere. *)
Lemma walk_tree_nofollow_all t :
  ∀ top, (∀ rest, islink (top +:+ rest) = false) →
         walk_tree_nofollow islink top t = Os.walk_tree top t.
Proof.
  induction t as [name files subdirs IH] using dirtree_forall_ind.
  intros top Hno. simpl. f_equal.
  induction IH as [|sub subdirs Hsub _ IHsubs]; [done|]. simpl.
  destruct (OsFacts.path_join_app top (dir_name sub)) as [sep Hjoin].
  rewrite IHsubs. f_equal.
  assert (∀ rest, islink (Os.path_join top (dir_name sub) +:+ rest) = false)
    as Hbelow.
  { intros rest. rewrite Hjoin, !str_app_assoc. apply Hno. }
  pose proof (Hbelow EmptyString) as Hhere. rewrite str_app_nil_r in Hhere.
  rewrite Hhere. by apply Hsub.
Qed.

Lemma files_of_app w1 w2 : files_of (w1 ++ w2) = files_of w1 ++ files_of w2.
Proof. unfold files_of. apply bind_app. Qed.

Lemma printed_listing :
  printed (list_working_directory islink cwd)
  = (λ fp, fp +:+ nl) <$> files_of (walk_nofollow islink cwd ".").
Proof.
  unfold list_working_directory, files_of.
  induction (walk_nofollow islink cwd ".") as [|[[root dirs] files] w IH];
    [done|].
  rewrite !bind_cons, printed_app, fmap_app, IH. f_equal.
  induction files as [|file files IHf]; [done|].
  rewrite !bind_cons, printed_app, fmap_app, IHf. done.
Qed.

(** X13.  The listing cell shows what the uploaders will upload, when
    neither [./data] nor anything below it is a symbolic link: the
    lines it prints for the files below [./data] are, as one block and
    in the same order, the paths that the uploaders walk; so every file
    that is uploaded was listed, under the very path it is read from. *)
Theorem listing_shows_the_uploaded_files folder bucket c :
  (∀ rest, islink ("./data" +:+ rest) = false) →
  (∃ before after,
     printed (list_working_directory islink cwd)
       = before ++ ((λ fp, fp +:+ nl) <$> walked_files cwd "./data") ++ after)
  ∧ (∀ f b k, (f, b, k) ∈ uploads (upload_folder_to_s3 cwd folder bucket c) →
              f +:+ nl ∈ printed (list_working_directory islink cwd))
  ∧ (∀ f b k,
       (f, b, k) ∈ uploads (parallel_upload_folder_to_s3 cwd folder bucket c) →
       f +:+ nl ∈ printed (list_working_directory islink cwd)).
Proof.
  intros Hno.
  assert (∃ before after,
            files_of (walk_nofollow islink cwd ".")
              = before ++ walked_files cwd "./data" ++ after)
    as (before & after & Hsplit).
  { rewrite walked_files_data, resolve_data.
    change (walk_nofollow islink cwd ".")
      with (walk_tree_nofollow islink "." cwd).
    destruct cwd as [name files subdirs].
    cbn [walk_tree_nofollow Os.subdir].
    destruct (list_find _ subdirs) as [[i t]|] eqn:Hfind;
      cbn [fmap option_fmap option_map from_option snd].
    - apply list_find_Some in Hfind as (Hi & Hname & _).
      rewrite <-(take_drop_middle _ _ _ Hi), flat_map_app. cbn [flat_map].
      rewrite Hname.
      change (Os.path_join "." "data") with "./data".
      pose proof (Hno EmptyString) as Hhere. rewrite str_app_nil_r in Hhere.
      rewrite Hhere, (walk_tree_nofollow_all t "./data" Hno).
      rewrite app_comm_cons, !files_of_app. eexists _, _. reflexivity.
    - eexists _, []. by rewrite app_nil_r. }
  assert (∀ fp, fp ∈ walked_files cwd "./data" →
                fp +:+ nl ∈ printed (list_working_directory islink cwd)) as Hin.
  { intros fp Hfp. rewrite printed_listing, Hsplit.
    apply (list_elem_of_fmap_2 (λ fp, fp +:+ nl)). rewrite !elem_of_app. auto. }
  split; [|split].
  - exists ((λ fp, fp +:+ nl) <$> before), ((λ fp, fp +:+ nl) <$> after).
    by rewrite printed_listing, Hsplit, !fmap_app.
  - intros f b k. rewrite uploads_sequential.
    intros (fp & [= -> _ _] & Hfp)%list_elem_of_fmap. by apply Hin.
  - intros f b k. rewrite uploads_parallel.
    intros (fp & [= -> _ _] & Hfp)%list_elem_of_fmap. by apply Hin.
Qed.

End UploaderMore.

Lemma uploaded_keys_are_distinct_witness :
  Os.resolve Sample.cwd "./data"
    = Some (DirTree "data" []
              [DirTree "2015_1" [] [DirTree "source" ["ren.tsv"; "pre.tsv"] []];
               DirTree "a" [] [DirTree "b" ["c.tsv"] []]])
  ∧ NoDup ((λ a, a.2)
             <$> uploads (upload_folder_to_s3 Sample.cwd "./other"
                            "fundamentals-data" Sample.client)).
Proof.
  assert (Os.resolve Sample.cwd "./data"
    = Some (DirTree "data" []
              [DirTree "2015_1" [] [DirTree "source" ["ren.tsv"; "pre.tsv"] []];
               DirTree "a" [] [DirTree "b" ["c.tsv"] []]])) as Ht
    by reflexivity.
  assert (well_formed
            (DirTree "data" []
              [DirTree "2015_1" [] [DirTree "source" ["ren.tsv"; "pre.tsv"] []];
               DirTree "a" [] [DirTree "b" ["c.tsv"] []]]) = true) as Hwf
    by (vm_compute; reflexivity).
  destruct (uploaded_keys_are_distinct Sample.cwd "./other" "fundamentals-data"
              Sample.client _ Ht Hwf) as (_ & Hkeys & _).
  exact (conj Ht Hkeys).
Defined.

Lemma listing_shows_the_uploaded_files_witness :
  Sample.islink "./other" = true
  ∧ Sample.islink "./data" = false
  ∧ "./data/a/b/c.tsv" +:+ nl
      ∈ printed (list_working_directory Sample.islink Sample.cwd).
Proof.
  assert (∀ rest, Sample.islink ("./data" +:+ rest) = false) as Hno.
  { intros rest. apply bool_decide_eq_false. intros Heq.
    vm_compute in Heq. discriminate Heq. }
  destruct (listing_shows_the_uploaded_files Sample.cwd Sample.islink
              "./data" "fundamentals-data" Sample.client Hno)
    as (_ & Hseq & _).
  refine (conj eq_refl (conj (Hno EmptyString) (Hseq "./data/a/b/c.tsv"
            "fundamentals-data" "data/a/b/c.tsv" _))).
  apply list_elem_of_In. vm_compute. auto.
Defined.
